(** * todo: a shallow embedding of the task model, the SQLite-backed
      subcommands and the list renderer

    Sources embedded here (paths relative to [src/src/todo]):
      - [task.py]               : [Priority], [Status], [Task]
      - [commands/add.py]       : [Add.run]
      - [commands/complete.py]  : [Complete.run]
      - [commands/reopen.py]    : [Reopen.run]
      - [commands/delete.py]    : [Delete.run]
      - [commands/list.py]      : [SortBy], [List.run], [render_table]

    Conventions.
      - Python [int] is [Z]; [str] is [string] (one character per code
        point); [len] of a sequence is a [nat].
      - An epoch timestamp (Python [float] seconds, SQLite NUMERIC) is an
        integer number of microseconds, the resolution of
        [datetime.datetime]; only equality and order of timestamps are used.
      - A raised Python exception is the left injection of a sum; everything
        the interpreter did before the raise stays in the world. *)

From Stdlib Require Import ZArith String List Lia Bool.
From stdpp Require Import base option list gmap strings sorting pretty.

Local Open Scope Z_scope.

(** ** Python exceptions raised by the embedded code *)

Inductive exn : Type :=
| ValueError (value : Z) (enum_cls : string)
    (* [enum_cls(value)]: "<value> is not a valid <enum_cls>" *)
| TypeError (msg : string)
| IntegrityError (msg : string).

Definition Timestamp : Type := Z.

(** ** task.py *)

Module Priority.
Inductive t : Type := LOW | MEDIUM | HIGH.

Definition value (p : t) : Z :=
  match p with LOW => 0 | MEDIUM => 1 | HIGH => 2 end.

Definition name (p : t) : string :=
  match p with LOW => "LOW" | MEDIUM => "MEDIUM" | HIGH => "HIGH" end.

(** [Priority(v)]: lookup of a member by value. *)
Definition from_value (v : Z) : exn + t :=
  if v =? 0 then inr LOW
  else if v =? 1 then inr MEDIUM
  else if v =? 2 then inr HIGH
  else inl (ValueError v "Priority").
End Priority.

Module Status.
Inductive t : Type := PENDING | ACTIVE | COMPLETED.

Definition value (s : t) : Z :=
  match s with PENDING => 0 | ACTIVE => 1 | COMPLETED => 2 end.

Definition name (s : t) : string :=
  match s with
  | PENDING => "PENDING" | ACTIVE => "ACTIVE" | COMPLETED => "COMPLETED"
  end.

(** [Status(v)]: lookup of a member by value. *)
Definition from_value (v : Z) : exn + t :=
  if v =? 0 then inr PENDING
  else if v =? 1 then inr ACTIVE
  else if v =? 2 then inr COMPLETED
  else inl (ValueError v "Status").
End Status.

(** A string the program prints: either characters known to the program, or
    the rendering [d.strftime("%Y-%m-%dT%H:%M:%S%z")] of the local datetime
    at an instant, which is left to [datetime] and [dateutil]. *)
Inductive text : Type :=
| Lit (s : string)
| Strftime (instant : Timestamp).

(** The values of the dictionary built by [Task.as_dict]; a Python [dict]
    keeps insertion order, so it is an association list. *)
Inductive value : Type :=
| VInt (n : Z)
| VStr (s : text).

Definition dict : Type := list (string * value).

(** A tuple fetched from table [task], columns in the order
    [id, title, priority, status, created_at, updated_at]. *)
Record Row : Type := mkRow {
  r_id : Z;
  r_title : string;
  r_priority : Z;
  r_status : Z;
  r_created_at : Timestamp;
  r_updated_at : Timestamp
}.

Module Task.
Record t : Type := mk {
  id : Z;
  title : string;
  priority : Priority.t;
  status : Status.t;
  created_at : Timestamp;  (* aware datetime at this instant, tz=tzlocal() *)
  updated_at : Timestamp
}.

(** [Task.from_data(id, title, priority, status, created_at, updated_at)].
    Keyword arguments are evaluated left to right, so [Priority(priority)]
    raises before [Status(status)] is looked at.  The two calls of
    [datetime.fromtimestamp] come last; they are taken on instants that
    [datetime] represents (years 1 to 9999, whole microseconds), as the
    times of insertion and update are: on such an instant the call returns
    the datetime at that instant, which is all that is kept here.  That it
    raises on other instants is not modelled. *)
Definition from_data (id : Z) (title : string) (priority status : Z)
    (created_at updated_at : Timestamp) : exn + t :=
  match Priority.from_value priority with
  | inl e => inl e
  | inr p =>
      match Status.from_value status with
      | inl e => inl e
      | inr s => inr (mk id title p s created_at updated_at)
      end
  end.

(** [Task.from_data] called on the unpacked [data], where [data] is what
    [fetchone()] returned: unpacking [None] raises [TypeError]. *)
Definition from_data_star (data : option Row) : exn + t :=
  match data with
  | None =>
      inl (TypeError
             "Task.from_data() argument after * must be an iterable, not NoneType")
  | Some r =>
      from_data (r_id r) (r_title r) (r_priority r) (r_status r)
                (r_created_at r) (r_updated_at r)
  end.

Definition as_dict (self : t) : dict :=
  [ ("id", VInt (id self));
    ("title", VStr (Lit (title self)));
    ("priority", VStr (Lit (Priority.name (priority self))));
    ("status", VStr (Lit (Status.name (status self))));
    ("created_at", VStr (Strftime (created_at self)));
    ("updated_at", VStr (Strftime (updated_at self))) ].
End Task.

(** ** The database behind [ctx.connection] *)

(** The columns of a stored row other than the primary key. *)
Record Cells : Type := mkCells {
  c_title : string;
  c_priority : Z;
  c_status : Z;
  c_created_at : Timestamp;
  c_updated_at : Timestamp
}.

(** Table [task], keyed by its primary key [id], and the largest id ever
    assigned ([sqlite_sequence]). *)
Record Database : Type := mkDatabase {
  task : gmap Z Cells;
  seq : Z
}.

Definition row_of (id : Z) (c : Cells) : Row :=
  mkRow id (c_title c) (c_priority c) (c_status c)
        (c_created_at c) (c_updated_at c).

Definition all_rows (d : Database) : list Row :=
  (λ kc, row_of kc.1 kc.2) <$> map_to_list (task d).

(** ** commands/list.py: [SortBy] and the ORDER BY clause *)

Inductive SortBy : Type := ID | PRIORITY | STATUS | CREATED_AT.

Inductive Dir : Type := ASC | DESC.

(** [self.sort_by.name.lower()], read as the column it names. *)
Definition sort_column (k : SortBy) (r : Row) : Z :=
  match k with
  | ID => r_id r
  | PRIORITY => r_priority r
  | STATUS => r_status r
  | CREATED_AT => r_created_at r
  end.

(** [CASE WHEN status = 2 THEN 3
         WHEN priority = 2 AND status != 2 THEN 1
         ELSE 2 END] *)
Definition case_rank (r : Row) : Z :=
  if r_status r =? Status.value Status.COMPLETED then 3
  else if (r_priority r =? Priority.value Priority.HIGH)
          && negb (r_status r =? Status.value Status.COMPLETED) then 1
  else 2.

(** One term of an ORDER BY clause: an expression and its direction. *)
Definition OrderTerm : Type := (Row → Z) * Dir.

Definition term_compare (t : OrderTerm) (a b : Row) : comparison :=
  match t.2 with
  | ASC => t.1 a ?= t.1 b
  | DESC => t.1 b ?= t.1 a
  end.

(** Rows are compared term by term, a later term deciding only when all
    the earlier ones tie. *)
Fixpoint order_compare (terms : list OrderTerm) (a b : Row) : comparison :=
  match terms with
  | [] => Eq
  | t :: rest =>
      match term_compare t a b with
      | Eq => order_compare rest a b
      | c => c
      end
  end.

(** [a] may stand before [b] in the result. *)
Definition order_le (terms : list OrderTerm) (a b : Row) : Prop :=
  order_compare terms a b ≠ Gt.

#[global] Instance order_le_dec terms a b : Decision (order_le terms a b).
Proof.
  unfold order_le. destruct (order_compare terms a b);
    [left | left | right]; congruence.
Defined.

(** The four terms of the query in [List.run], all in direction [desc]. *)
Definition list_order (sort_by : SortBy) (desc : Dir) : list OrderTerm :=
  [ (sort_column sort_by, desc);
    (case_rank, desc);
    (r_priority, desc);
    (r_status, desc) ].

(** ** commands/list.py: [render_table] *)

Record Widths : Type := mkWidths {
  width_id : nat;
  width_title : nat;
  width_priority : nat;
  width_status : nat;
  width_created_at : nat;
  width_updated_at : nat
}.

(** Which of the three horizontal rules a line is; the box-drawing
    characters themselves are not modelled. *)
Inductive Border : Type := Top | Middle | Bottom.

(** A line of the table: a rule spanning the six widths, or six cells, the
    first centred in [width_id] and the others left-justified in theirs
    ([str.center] and [str.ljust] pad and never truncate). *)
Inductive Line : Type :=
| Rule (b : Border) (w : Widths)
| Fields (w : Widths) (cells : list text).

(** [max(n, n, *xs)] *)
Definition max_of (n : nat) (xs : list nat) : nat := foldr Nat.max n xs.

(** Lines 106-116 of [render_table]. *)
Definition table_widths (tasks : list Task.t) : Widths :=
  {| width_id := Nat.max 2 (String.length (pretty (length tasks)));
     width_title :=
       max_of 5 ((λ t, String.length (Task.title t)) <$> tasks);
     width_priority :=
       max_of 8 ((λ t, String.length (Priority.name (Task.priority t))) <$> tasks);
     width_status :=
       max_of 6 ((λ t, String.length (Status.name (Task.status t))) <$> tasks);
     width_created_at := if (0 <? length tasks)%nat then 24%nat else 10%nat;
     width_updated_at := if (0 <? length tasks)%nat then 24%nat else 10%nat |}.

Definition header_cells : list text :=
  [ Lit "ID"; Lit "Title"; Lit "Priority"; Lit "Status";
    Lit "Created at"; Lit "Updated at" ].

Definition task_cells (t : Task.t) : list text :=
  [ Lit (pretty (Task.id t));
    Lit (Task.title t);
    Lit (Priority.name (Task.priority t));
    Lit (Status.name (Task.status t));
    Strftime (Task.created_at t);
    Strftime (Task.updated_at t) ].

Definition render_table (tasks : list Task.t) : list Line :=
  let w := table_widths tasks in
  [ Rule Top w; Fields w header_cells; Rule Middle w ]
    ++ ((λ t, Fields w (task_cells t)) <$> tasks)
    ++ [ Rule Bottom w ].

(** ** The world a subcommand runs in *)

(** What one [write] call (or [print]) sent to a stream. *)
Inductive chunk : Type :=
| Text (s : string)
| JsonDumps (d : dict)            (* json.dumps(d, indent=2) + newline *)
| JsonDumpsList (ds : list dict)  (* json.dumps([d, ...], indent=2) + newline *)
| Joined (ls : list Line).        (* newline.join(lines) + newline *)

(** The SQL statements the subcommands execute, with their parameters. *)
Inductive Stmt : Type :=
| INSERT (title : string) (priority status : Z)
    (* INSERT INTO task(title, priority, status) VALUES(?, ?, ?) *)
| UPDATE_status (status : Status.t) (updated_at : Timestamp) (id : Z)
    (* UPDATE task SET status = {status.value}, updated_at = {..}
       WHERE id = ? *)
| SELECT_by_id (id : option Z)
    (* SELECT id, title, priority, status, created_at, updated_at
       FROM task WHERE id = ?   -- None is NULL *)
| SELECT_star_by_id (id : Z)
    (* SELECT * FROM task WHERE id = ? *)
| DELETE_by_id (id : Z)
    (* DELETE FROM task WHERE id = ? *)
| SELECT_list (where_not_completed : bool) (sort_by : SortBy) (desc : Dir).
    (* SELECT .. FROM task [WHERE status != 2] ORDER BY .. *)

Record World : Type := mkWorld {
  db : Database;         (* the table as the connection sees it *)
  durable : Database;    (* the table as of the last commit *)
  clock : Timestamp;     (* the current time *)
  stdout : list chunk;
  stderr : list chunk;
  executed : list Stmt   (* every statement passed to [cursor.execute] *)
}.

Definition M (A : Type) : Type := World → World * (exn + A).

#[global] Instance M_ret : MRet M := λ A a w, (w, inr a).

#[global] Instance M_bind : MBind M := λ A B k m w,
  match m w with
  | (w', inl e) => (w', inl e)
  | (w', inr a) => k a w'
  end.

(** A Python expression that may raise. *)
Definition lift {A} (r : exn + A) : M A := λ w, (w, r).

Definition set_db (d : Database) (w : World) : World :=
  mkWorld d (durable w) (clock w) (stdout w) (stderr w) (executed w).

Definition log_stmt (s : Stmt) (w : World) : World :=
  mkWorld (db w) (durable w) (clock w) (stdout w) (stderr w)
          (executed w ++ [s]).

(** [ctx.connection.commit()] *)
Definition commit : M () := λ w,
  (mkWorld (db w) (db w) (clock w) (stdout w) (stderr w) (executed w), inr ()).

(** [datetime.datetime.now()] followed by [.timestamp()] *)
Definition datetime_now : M Timestamp := λ w, (w, inr (clock w)).

Definition write_stdout (c : chunk) : M () := λ w,
  (mkWorld (db w) (durable w) (clock w) (stdout w ++ [c]) (stderr w)
           (executed w), inr ()).

Definition write_stderr (c : chunk) : M () := λ w,
  (mkWorld (db w) (durable w) (clock w) (stdout w) (stderr w ++ [c])
           (executed w), inr ()).

Definition nl : string := String (Ascii.ascii_of_nat 10) EmptyString.

(** ** The statements, executed on the database *)

(** Modelled from the spec: the declaration of table [task] is not in the
    sources (only the INSERT, UPDATE, SELECT and DELETE statements on it
    are). From the spec: [id] is an auto-increment primary key, never reused
    after deletion; [priority] and [status] are integers checked to lie in
    0..2; a row is created with the current timestamp for both [created_at]
    and [updated_at]; the columns are declared in the order [id, title,
    priority, status, created_at, updated_at], which is what [SELECT *]
    returns. *)
Definition check_0_2 (v : Z) : bool := (0 <=? v) && (v <=? 2).

Definition next_id (d : Database) : Z :=
  1 + foldr Z.max (seq d) ((map_to_list (task d)).*1).

Definition db_insert (now : Timestamp) (title : string) (priority status : Z)
    (d : Database) : exn + Database * Z :=
  if check_0_2 priority && check_0_2 status then
    let id := next_id d in
    inr (mkDatabase
           (<[id := mkCells title priority status now now]> (task d)) id,
         id)
  else inl (IntegrityError "CHECK constraint failed").

Definition db_update_status (status : Status.t) (updated_at : Timestamp)
    (id : Z) (d : Database) : Database :=
  mkDatabase
    (alter (λ c, mkCells (c_title c) (c_priority c) (Status.value status)
                         (c_created_at c) updated_at)
           id (task d))
    (seq d).

Definition db_select_by_id (id : Z) (d : Database) : list Row :=
  match task d !! id with
  | Some c => [row_of id c]
  | None => []
  end.

Definition db_delete (id : Z) (d : Database) : Database :=
  mkDatabase (delete id (task d)) (seq d).

(** The WHERE clause of the query in [List.run], present or not. *)
Definition where_ok (where_not_completed : bool) (r : Row) : Prop :=
  where_not_completed = true → r_status r ≠ Status.value Status.COMPLETED.

#[global] Instance where_ok_dec b r : Decision (where_ok b r).
Proof. unfold where_ok. apply _. Defined.

(** The rows a query returns are the rows that pass the WHERE clause, in
    an order that agrees with ORDER BY; rows that tie on every term come in
    an order SQL leaves open.  A merge sort stands for the engine's sort:
    the properties below use only that its result is sorted and is a
    permutation of its input. *)
Definition db_select_list (where_not_completed : bool) (sort_by : SortBy)
    (desc : Dir) (d : Database) : list Row :=
  merge_sort (order_le (list_order sort_by desc))
             (filter (where_ok where_not_completed) (all_rows d)).

(** A cursor after [execute]: the rows left to fetch and [lastrowid]. *)
Record Cursor : Type := mkCursor {
  fetched : list Row;
  lastrowid : option Z
}.

Definition fetchone (c : Cursor) : option Row := head (fetched c).
Definition fetchall (c : Cursor) : list Row := fetched c.

Definition run_stmt (s : Stmt) (now : Timestamp) (d : Database)
    : exn + Database * Cursor :=
  match s with
  | INSERT title priority status =>
      match db_insert now title priority status d with
      | inl e => inl e
      | inr (d', id) => inr (d', mkCursor [] (Some id))
      end
  | UPDATE_status status updated_at id =>
      inr (db_update_status status updated_at id d, mkCursor [] None)
  | SELECT_by_id None => inr (d, mkCursor [] None)
  | SELECT_by_id (Some id) | SELECT_star_by_id id =>
      inr (d, mkCursor (db_select_by_id id d) None)
  | DELETE_by_id id => inr (db_delete id d, mkCursor [] None)
  | SELECT_list where_not_completed sort_by desc =>
      inr (d, mkCursor (db_select_list where_not_completed sort_by desc d) None)
  end.

(** [cursor.execute(stmt, params)] *)
Definition execute (s : Stmt) : M Cursor := λ w0,
  let w := log_stmt s w0 in
  match run_stmt s (clock w) (db w) with
  | inl e => (w, inl e)
  | inr (d, c) => (set_db d w, inr c)
  end.

(** ** The subcommands *)

(** The [id] of [Complete], [Reopen] and [Delete] is declared [int] in the
    dataclass and is an integer here; SQLite compares it with the INTEGER
    column [id] as a number.  An SQLite INTEGER is a signed 64-bit number:
    every stored id is one, and [sqlite3] raises [OverflowError] when it is
    given a Python [int] outside that range to bind, as [delete] can be
    from the command line.  [run_stmt] has no such path: what is stated of
    an id that need not be a stored one is stated for ids within the
    range ([int64] below). *)

Module Add.
Record t : Type := mk {
  title : string;
  priority : Priority.t;
  status : Status.t
}.

Definition run (self : t) : M () :=
  cursor ← execute (INSERT (title self) (Priority.value (priority self))
                           (Status.value (status self)));
  _ ← commit;
  let task_id := lastrowid cursor in
  cursor ← execute (SELECT_by_id task_id);
  let data := fetchone cursor in
  task ← lift (Task.from_data_star data);
  _ ← write_stderr (Text ("Task created successfully!" +:+ nl +:+ nl));
  write_stdout (JsonDumps (Task.as_dict task)).
End Add.

Module Complete.
Record t : Type := mk { id : Z }.

Definition run (self : t) : M () :=
  now ← datetime_now;
  _ ← execute (UPDATE_status Status.COMPLETED now (id self));
  _ ← commit;
  cursor ← execute (SELECT_by_id (Some (id self)));
  let data := fetchone cursor in
  task ← lift (Task.from_data_star data);
  _ ← write_stderr
        (Text ("Completed task with ID " +:+ pretty (id self) +:+ nl +:+ nl));
  write_stdout (JsonDumps (Task.as_dict task)).
End Complete.

Module Reopen.
Record t : Type := mk { id : Z }.

Definition run (self : t) : M () :=
  write_stdout (Text ("Not implemented yet!" +:+ nl)).
End Reopen.

Module Delete.
Record t : Type := mk { id : Z }.

Definition run (self : t) : M () :=
  cursor ← execute (SELECT_star_by_id (id self));
  let data := fetchone cursor in
  match data with
  | None =>
      write_stderr
        (Text ("No task with ID " +:+ pretty (id self) +:+ " found" +:+ nl))
  | Some _ =>
      task ← lift (Task.from_data_star data);
      _ ← execute (DELETE_by_id (id self));
      _ ← commit;
      _ ← write_stderr
            (Text ("Deleted task with ID " +:+ pretty (id self) +:+ nl +:+ nl));
      write_stdout (JsonDumps (Task.as_dict task))
  end.
End Delete.

(** The list comprehension calling [Task.from_data] on each fetched row, in
    order: the first row that fails raises. *)
Fixpoint tasks_of_rows (rows : list Row) : exn + list Task.t :=
  match rows with
  | [] => inr []
  | r :: rest =>
      match Task.from_data_star (Some r) with
      | inl e => inl e
      | inr t =>
          match tasks_of_rows rest with
          | inl e => inl e
          | inr ts => inr (t :: ts)
          end
      end
  end.

Module List.
Record t : Type := mk {
  sort_by : SortBy;
  reverse : bool;
  as_json : bool;
  show_all : bool
}.

(** Lines 70-72 of [run]: the assignment to [self.reverse]. *)
Definition flip_reverse (self : t) : t :=
  match sort_by self with
  | PRIORITY =>
      mk (sort_by self) (negb (reverse self)) (as_json self) (show_all self)
  | _ => self
  end.

(** Line 74 of [run]: ["DESC" if self.reverse else "ASC"]. *)
Definition desc (self : t) : Dir := if reverse self then DESC else ASC.

(** Lines 70-95 of [run]: the request object after the assignment, and the
    tasks built from the rows of the query. *)
Definition fetch_tasks (self : t) : M (t * list Task.t) :=
  let self := flip_reverse self in
  let desc := desc self in
  cursor ← execute (SELECT_list (negb (show_all self)) (sort_by self) desc);
  tasks ← lift (tasks_of_rows (fetchall cursor));
  mret (self, tasks).

(** [run] mutates [self]; the object after the call is the result. *)
Definition run (self : t) : M t :=
  '(self, tasks) ← fetch_tasks self;
  if as_json self then
    _ ← write_stdout (JsonDumpsList (Task.as_dict <$> tasks));
    mret self
  else
    _ ← write_stdout (Joined (render_table tasks));
    mret self.
End List.

(** ** Vocabulary of the properties *)

(** The tuple a task was built from: [Task.from_data] undone. *)
Definition task_row (t : Task.t) : Row :=
  mkRow (Task.id t) (Task.title t) (Priority.value (Task.priority t))
        (Status.value (Task.status t)) (Task.created_at t) (Task.updated_at t).

Definition row_valid (r : Row) : Prop :=
  check_0_2 (r_priority r) = true ∧ check_0_2 (r_status r) = true.

(** Decide the three [=?] tests of a [from_value] on [v]. *)
Ltac case_enum_value v :=
  destruct (Z.eqb_spec v 0) as [->|?];
    [| destruct (Z.eqb_spec v 1) as [->|?];
         [| destruct (Z.eqb_spec v 2) as [->|?]]].


(** The rows of a database satisfy the CHECK constraints of the table. *)
Definition db_valid (d : Database) : Prop :=
  map_Forall (λ _ c, row_valid (row_of 0 c)) (task d).

(** The key of an ORDER BY term with its direction folded in: DESC orders
    by the negated expression. *)
Definition term_key (t : OrderTerm) (r : Row) : Z :=
  match t.2 with
  | ASC => t.1 r
  | DESC => - t.1 r
  end.

(** The rank the tie-break gives a task: COMPLETED tasks 3, HIGH tasks that
    are not completed 1, every other task 2. *)
Definition tiebreak_rank (t : Task.t) : Z :=
  match Task.status t, Task.priority t with
  | Status.COMPLETED, _ => 3
  | _, Priority.HIGH => 1
  | _, _ => 2
  end.

Definition sort_key (k : SortBy) (t : Task.t) : Z := sort_column k (task_row t).

(** Among listed tasks tied on the sort key, the tie-break ranks do not
    decrease (direction [ASC]: rank 1 first, rank 3 last) or do not increase
    (direction [DESC]) down the list. *)
Definition tiebreak_respected (d : Dir) (k : SortBy) (tasks : list Task.t)
    : Prop :=
  ∀ i j a b, (i < j)%nat → tasks !! i = Some a → tasks !! j = Some b →
    sort_key k a = sort_key k b →
    match d with
    | ASC => tiebreak_rank a ≤ tiebreak_rank b
    | DESC => tiebreak_rank b ≤ tiebreak_rank a
    end.

(** What [List.run] writes to stdout for the tasks it fetched. *)
Definition list_output (as_json : bool) (tasks : list Task.t) : chunk :=
  if as_json then JsonDumpsList (Task.as_dict <$> tasks)
  else Joined (render_table tasks).

(** ** A small database used to run the subcommands on *)

Definition demo_db : Database :=
  mkDatabase
    (<[1 := mkCells "write report" 2 2 10 40]>
       (<[2 := mkCells "call bank" 2 0 20 20]>
          (<[3 := mkCells "water plants" 0 0 30 30]> ∅)))
    3.

Definition demo_world : World := mkWorld demo_db demo_db 100 [] [] [].

(** [d[key]] for a key of the dictionary. *)
Fixpoint dict_get (key : string) (d : dict) : option value :=
  match d with
  | [] => None
  | (k, v) :: rest => if String.eqb k key then Some v else dict_get key rest
  end.

(** The names the enumerations give their members, by value: what
    [Priority(v).name] and [Status(v).name] are for [v] in 0..2. *)
Definition member_names (v : Z) : string * string :=
  if v =? 0 then ("LOW", "PENDING")
  else if v =? 1 then ("MEDIUM", "ACTIVE")
  else ("HIGH", "COMPLETED").

(** The table of display names as the specification words it. *)
Definition spec_display_names (v : Z) : string * string :=
  if v =? 0 then ("Low", "Pending")
  else if v =? 1 then ("Medium", "Active")
  else ("High", "Completed").

(** A first run: no table rows yet, nothing printed. *)
Definition empty_world : World :=
  mkWorld (mkDatabase ∅ 0) (mkDatabase ∅ 0) 50 [] [] [].

(** The ids of the tasks a run of [List.fetch_tasks] returned. *)
Definition listed_ids (r : exn + List.t * list Task.t) : exn + list Z :=
  match r with
  | inl e => inl e
  | inr (_, tasks) => inr (Task.id <$> tasks)
  end.

(** The integers SQLite stores and [sqlite3] binds: signed 64-bit. *)
Definition int64 (z : Z) : Prop :=
  -9223372036854775808 ≤ z ≤ 9223372036854775807.

(** * The rest of the program *)

(** ** Exceptions raised outside the subcommands *)

Inductive error : Type :=
| ValueErrorMsg (msg : string)        (* ValueError(msg) *)
| KeyError (key : string)             (* KeyError(key) *)
| TypeErrorMsg (msg : string)         (* TypeError(msg) *)
| FileNotFoundError (msg : string)
| AssertionError.

(** ** ASCII case conversion

    [str.upper], [str.lower] and membership in [string.ascii_uppercase],
    on the characters below 128; on those, Python's conversions are the
    ones of ASCII.  Characters from 128 up are left alone here, and the
    properties that depend on a conversion assume ASCII strings. *)

Definition is_ascii (c : Ascii.ascii) : bool := (Ascii.nat_of_ascii c <? 128)%nat.

Definition is_ascii_str (s : string) : Prop :=
  Forall (λ c, is_ascii c = true) (String.list_ascii_of_string s).

(** [c in string.ascii_uppercase] *)
Definition in_ascii_uppercase (c : Ascii.ascii) : bool :=
  (65 <=? Ascii.nat_of_ascii c)%nat && (Ascii.nat_of_ascii c <=? 90)%nat.

Definition in_ascii_lowercase (c : Ascii.ascii) : bool :=
  (97 <=? Ascii.nat_of_ascii c)%nat && (Ascii.nat_of_ascii c <=? 122)%nat.

Definition char_lower (c : Ascii.ascii) : Ascii.ascii :=
  if in_ascii_uppercase c then Ascii.ascii_of_nat (Ascii.nat_of_ascii c + 32) else c.

Definition char_upper (c : Ascii.ascii) : Ascii.ascii :=
  if in_ascii_lowercase c then Ascii.ascii_of_nat (Ascii.nat_of_ascii c - 32) else c.

Fixpoint str_upper (s : string) : string :=
  match s with
  | EmptyString => EmptyString
  | String c rest => String (char_upper c) (str_upper rest)
  end.

(** ** Python's [logging]: the level constants and [getLevelName] *)

Module logging.
Definition DEBUG : Z := 10.
Definition INFO : Z := 20.
Definition WARNING : Z := 30.
Definition ERROR : Z := 40.
Definition CRITICAL : Z := 50.

Definition getLevelName (level : Z) : string :=
  if level =? 50 then "CRITICAL"
  else if level =? 40 then "ERROR"
  else if level =? 30 then "WARNING"
  else if level =? 20 then "INFO"
  else if level =? 10 then "DEBUG"
  else if level =? 0 then "NOTSET"
  else "Level " +:+ pretty level.
End logging.

(** ** verbosity.py *)

Module Verbosity.
Inductive t : Type := SILENT | QUIET | DEFAULT | VERBOSE | EXTRA_VERBOSE.

(** The members are numbered by [enum.auto()], from 1. *)
Definition value (v : t) : Z :=
  match v with
  | SILENT => 1 | QUIET => 2 | DEFAULT => 3 | VERBOSE => 4
  | EXTRA_VERBOSE => 5
  end.

Definition negative (n : Z) : error :=
  ValueErrorMsg ("expected value greater than 0, got " +:+ pretty n).

(** The two [match] statements of [from_args], [quiet] first. *)
Definition from_args (verbose quiet : Z) : error + t :=
  if quiet <? 0 then inl (negative quiet)
  else if quiet =? 0 then
    if verbose <? 0 then inl (negative verbose)
    else if verbose =? 0 then inr DEFAULT
    else if verbose =? 1 then inr VERBOSE
    else inr EXTRA_VERBOSE
  else if quiet =? 1 then inr QUIET
  else inr SILENT.

Definition to_level (self : t) : option Z :=
  match self with
  | SILENT => None
  | QUIET => Some logging.ERROR
  | DEFAULT => Some logging.WARNING
  | VERBOSE => Some logging.INFO
  | EXTRA_VERBOSE => Some logging.DEBUG
  end.

Definition to_level_name (self : t) : option string :=
  match to_level self with
  | None => None
  | Some level => Some (logging.getLevelName level)
  end.
End Verbosity.

(** ** logger.py *)

(** [level_from_directive]: [None] stands for disabling logging. *)
Definition level_from_directive (directive : string) : error + option Z :=
  let d := str_upper directive in
  if String.eqb d "OFF" then inr None
  else if String.eqb d "DEBUG" then inr (Some logging.DEBUG)
  else if String.eqb d "INFO" then inr (Some logging.INFO)
  else if String.eqb d "WARNING" || String.eqb d "WARN"
    then inr (Some logging.WARNING)
  else if String.eqb d "ERROR" then inr (Some logging.ERROR)
  else if String.eqb d "CRITICAL" || String.eqb d "FATAL"
    then inr (Some logging.CRITICAL)
  else inl (ValueErrorMsg ("invalid log level directive: " +:+ directive)).

(** ** __main__.py: the logging set up by [main] (lines 67-87) *)

(** What [main] does to [logging]: [logging.disable()], or
    [setup_logger(level, handlers)]. *)
Inductive LogSetup : Type :=
| Disabled
| Threshold (level : Z).

(** [os.getenv(key, fallback)] *)
Definition getenv (env : gmap string string) (key fallback : string) : string :=
  default fallback (env !! key).

(** [verbose] and [quiet] are the counts of [-v] and [-q]; [env] is the
    process environment; the package is [todo]. *)
Definition main_log_setup (verbose quiet : Z) (env : gmap string string)
    : error + LogSetup :=
  match Verbosity.from_args verbose quiet with
  | inl e => inl e
  | inr Verbosity.SILENT => inr Disabled
  | inr Verbosity.DEFAULT =>
      match Verbosity.to_level_name Verbosity.DEFAULT with
      | None => inl AssertionError
      | Some fallback =>
          let directive := getenv env "TODO_LOG" fallback in
          match level_from_directive directive with
          | inl e => inl e
          | inr None => inr Disabled
          | inr (Some level) => inr (Threshold level)
          end
      end
  | inr verbosity =>
      match Verbosity.to_level verbosity with
      | None => inl AssertionError
      | Some level => inr (Threshold level)
      end
  end.

(** Thresholds compared as the logger uses them: a lower level lets more
    events through, and no level at all (logging disabled) lets none. *)
Definition level_le (a b : option Z) : Prop :=
  match a, b with
  | _, None => True
  | None, Some _ => False
  | Some x, Some y => x ≤ y
  end.

(** ** subcommand.py *)

(** The character of ["-"]. *)
Definition hyphen : Ascii.ascii := Ascii.ascii_of_nat 45.

(** [s[1:]] *)
Definition str_tail (s : string) : string :=
  match s with
  | EmptyString => EmptyString
  | String _ rest => rest
  end.

(** The loop of [_camel_case_to_kebab_case] over [name[1:]]. *)
Fixpoint kebab_tail (s : string) : string :=
  match s with
  | EmptyString => EmptyString
  | String c rest =>
      if in_ascii_uppercase c
      then String hyphen (String (char_lower c) (kebab_tail rest))
      else String c (kebab_tail rest)
  end.

Definition _camel_case_to_kebab_case (name : string) : string :=
  match name with
  | EmptyString => name
  | String c rest => String (char_lower c) (kebab_tail rest)
  end.

(** [Subcommand.register], as far as [subcommand_registry] goes (the parser
    it creates and fills is argparse's): the registry maps dispatch names
    to handler classes, and a class is known by its [__name__] here. *)
Definition register (cls : string) (registry : gmap string string)
    : gmap string string :=
  <[_camel_case_to_kebab_case cls := cls]> registry.

(** The loop of [register_subcommands] over the handlers, in order. *)
Definition register_all (handlers : list string)
    (registry : gmap string string) : gmap string string :=
  foldl (λ reg cls, register cls reg) registry handlers.

(** The handlers [register_subcommands] lists. *)
Definition subcommand_handlers : list string :=
  ["Add"; "Complete"; "Delete"; "Edit"; "List"; "Reopen"].

(** The number of characters of a string that are in
    [string.ascii_uppercase]. *)
Fixpoint count_upper (s : string) : nat :=
  match s with
  | EmptyString => 0
  | String c rest =>
      ((if in_ascii_uppercase c then 1 else 0) + count_upper rest)%nat
  end.

(** A class name in CamelCase: an ASCII upper-case letter, then characters
    other than the hyphen (which no identifier has). *)
Definition camel_case (name : string) : Prop :=
  match name with
  | EmptyString => False
  | String c rest =>
      in_ascii_uppercase c = true ∧
      Forall (λ x, x ≠ hyphen) (String.list_ascii_of_string rest)
  end.

(** ** commands/add.py: [Add.from_args] and the options it reads *)

(** [Priority[name]]: lookup of a member by name. *)
Definition Priority_getitem (name : string) : error + Priority.t :=
  if String.eqb name "LOW" then inr Priority.LOW
  else if String.eqb name "MEDIUM" then inr Priority.MEDIUM
  else if String.eqb name "HIGH" then inr Priority.HIGH
  else inl (KeyError name).

(** [Status[name]]: lookup of a member by name. *)
Definition Status_getitem (name : string) : error + Status.t :=
  if String.eqb name "PENDING" then inr Status.PENDING
  else if String.eqb name "ACTIVE" then inr Status.ACTIVE
  else if String.eqb name "COMPLETED" then inr Status.COMPLETED
  else inl (KeyError name).

(** [[e.name for e in Priority]] and [[e.name for e in Status]], the
    [choices] of [--priority] and [--status]. *)
Definition priority_choices : list string :=
  Priority.name <$> [Priority.LOW; Priority.MEDIUM; Priority.HIGH].

Definition status_choices : list string :=
  Status.name <$> [Status.PENDING; Status.ACTIVE; Status.COMPLETED].

(** The attributes of the namespace that [Add.from_args] reads. *)
Record AddArgs : Type := mkAddArgs {
  args_title : string;
  args_priority : string;
  args_status : string
}.

(** [Add.from_args]; the arguments of [cls(...)] are evaluated in order. *)
Definition Add_from_args (args : AddArgs) : error + Add.t :=
  match Priority_getitem (args_priority args) with
  | inl e => inl e
  | inr p =>
      match Status_getitem (args_status args) with
      | inl e => inl e
      | inr s => inr (Add.mk (args_title args) p s)
      end
  end.

(** ** __main__.py: the dispatch at the end of [main] (lines 101-107) *)

Module ExitCode.
Inductive t : Type := SUCCESS | FAILURE | USAGE.

Definition value (c : t) : Z :=
  match c with SUCCESS => 0 | FAILURE => 1 | USAGE => 2 end.
End ExitCode.

(** The request object [subcommand.from_args(args)] returned, by the class
    that built it. *)
Inductive Request : Type :=
| AddRequest (self : Add.t)
| CompleteRequest (self : Complete.t)
| DeleteRequest (self : Delete.t)
| ListRequest (self : List.t)
| ReopenRequest (self : Reopen.t).

(** [request.run(ctx)], dispatched on the class. *)
Definition Request_run (request : Request) : M () :=
  match request with
  | AddRequest self => Add.run self
  | CompleteRequest self => Complete.run self
  | DeleteRequest self => Delete.run self
  | ListRequest self => _ ← List.run self; mret ()
  | ReopenRequest self => Reopen.run self
  end.

(** [main] after the request is built: run it and return
    [ExitCode.SUCCESS]; an exception of [run] is not caught. *)
Definition main_run (request : Request) : M ExitCode.t :=
  _ ← Request_run request;
  mret ExitCode.SUCCESS.

(** ** commands/list.py: the lines of [render_table], measured *)

(** The length of [s.ljust(w)] and of [s.center(w)] for [s] of length
    [len]: the string is padded up to [w] and never cut. *)
Definition padded_len (len w : nat) : nat := Nat.max len w.

(** The length of a printed [text]; [tlen] gives the length of what
    [strftime] renders for an instant. *)
Definition text_len (tlen : Timestamp → nat) (x : text) : nat :=
  match x with
  | Lit s => String.length s
  | Strftime instant => tlen instant
  end.

Definition widths_list (w : Widths) : list nat :=
  [ width_id w; width_title w; width_priority w; width_status w;
    width_created_at w; width_updated_at w ].

(** The number of characters of a line.  A rule is a corner and, for each
    column, [width + 2] dashes and a junction or corner; a line of cells is
    a bar and, for each column, a space, the padded cell, a space and a
    bar. *)
Definition line_len (tlen : Timestamp → nat) (l : Line) : nat :=
  match l with
  | Rule _ w => (1 + sum_list ((λ n, n + 2 + 1) <$> widths_list w))%nat
  | Fields w cells =>
      (1 + sum_list
             (zip_with (λ c n, 1 + padded_len (text_len tlen c) n + 1 + 1)
                       cells (widths_list w)))%nat
  end.

(** ** pyproject.py *)

(** A value of the decoded [pyproject.toml], as far as
    [pyproject_update_env] tells values apart: a string, a table of values
    one level down, or anything else. *)
Inductive leaf : Type :=
| LStr (s : string)
| LOther (n : Z).

Inductive toml : Type :=
| Leaf (v : leaf)
| Table (items : gmap string leaf).

(** [pyproject_update_env(data, env)] for [env] a [dict].  The environment
    after the call comes with the exception, if one was raised: the two
    assignments are made in order, each after its lookup.  Indexing a
    [project] that is not a table raises a [TypeError] whose message
    depends on the type of the value. *)
Definition pyproject_update_env (data : gmap string toml)
    (env : gmap string leaf) : gmap string leaf * (error + ()) :=
  match data !! "project" with
  | None => (env, inl (KeyError "project"))
  | Some (Leaf _) => (env, inl (TypeErrorMsg "project is not a table"))
  | Some (Table project) =>
      match project !! "name" with
      | None => (env, inl (KeyError "name"))
      | Some name =>
          let env := <["PYPROJECT_NAME" := name]> env in
          match project !! "version" with
          | None => (env, inl (KeyError "version"))
          | Some version => (<["PYPROJECT_VERSION" := version]> env, inr ())
          end
      end
  end.

(** A path is the list of its components, the innermost first, so that
    the parents of a directory are the tails of its list and the root is
    the empty list; [files] tells which paths exist. *)
Definition joinpath (parent : list string) (name : string) : list string :=
  name :: parent.

(** [find_pyproject(start)]: the loop over [(start, *start.parents)]. *)
Fixpoint find_pyproject (files : list string → bool) (start : list string)
    : error + list string :=
  let candidate := joinpath start "pyproject.toml" in
  if files candidate then inr candidate
  else
    match start with
    | [] => inl (FileNotFoundError "expected pyproject.toml to exist at root")
    | _ :: parent => find_pyproject files parent
    end.

(** ** Vocabulary of the listing order *)

(** Down a list of tasks, the sort key does not decrease (direction [ASC])
    or does not increase (direction [DESC]). *)
Definition sorted_by_key (d : Dir) (k : SortBy) (tasks : list Task.t) : Prop :=
  ∀ i j a b, (i < j)%nat → tasks !! i = Some a → tasks !! j = Some b →
    match d with
    | ASC => sort_key k a ≤ sort_key k b
    | DESC => sort_key k b ≤ sort_key k a
    end.

(** Decide the [String.eqb] tests of a goal, one after the other. *)
Ltac case_string_eqb :=
  repeat match goal with
    | |- context [String.eqb ?a ?b] => destruct (String.eqb_spec a b)
    end.


(** * Properties *)

(** ** The enumerations *)

Lemma Priority_from_value_value p :
  Priority.from_value (Priority.value p) = inr p.
Proof. by destruct p. Qed.

Lemma Status_from_value_value s :
  Status.from_value (Status.value s) = inr s.
Proof. by destruct s. Qed.

Lemma Priority_from_value_inr v p :
  Priority.from_value v = inr p → v = Priority.value p.
Proof.
  unfold Priority.from_value. case_enum_value v; by intros [= <-] || done.
Qed.

Lemma Status_from_value_inr v s :
  Status.from_value v = inr s → v = Status.value s.
Proof.
  unfold Status.from_value. case_enum_value v; by intros [= <-] || done.
Qed.

Lemma check_0_2_cases v :
  check_0_2 v = true ↔ v = 0 ∨ v = 1 ∨ v = 2.
Proof. unfold check_0_2. rewrite andb_true_iff, !Z.leb_le. lia. Qed.

Lemma Priority_from_value_in_range v :
  check_0_2 v = true → ∃ p, Priority.from_value v = inr p.
Proof.
  rewrite check_0_2_cases. intros [-> | [-> | ->]]; eauto.
Qed.

Lemma Status_from_value_in_range v :
  check_0_2 v = true → ∃ s, Status.from_value v = inr s.
Proof.
  rewrite check_0_2_cases. intros [-> | [-> | ->]]; eauto.
Qed.

Lemma Priority_from_value_out_of_range v :
  v < 0 ∨ 2 < v → Priority.from_value v = inl (ValueError v "Priority").
Proof.
  intros H. unfold Priority.from_value. case_enum_value v; lia || done.
Qed.

Lemma Status_from_value_out_of_range v :
  v < 0 ∨ 2 < v → Status.from_value v = inl (ValueError v "Status").
Proof.
  intros H. unfold Status.from_value. case_enum_value v; lia || done.
Qed.

Lemma Priority_value_check p : check_0_2 (Priority.value p) = true.
Proof. by destruct p. Qed.

Lemma Status_value_check s : check_0_2 (Status.value s) = true.
Proof. by destruct s. Qed.

(** ** [Task.from_data] *)

Lemma from_data_star_task_row t :
  Task.from_data_star (Some (task_row t)) = inr t.
Proof.
  destruct t as [i ti p s c u]. unfold Task.from_data_star, Task.from_data.
  simpl. by rewrite Priority_from_value_value, Status_from_value_value.
Qed.

Lemma from_data_star_inr r t :
  Task.from_data_star (Some r) = inr t → r = task_row t.
Proof.
  destruct r as [i ti p s c u]. unfold Task.from_data_star, Task.from_data.
  simpl.
  destruct (Priority.from_value p) as [|p'] eqn:Hp; [done |].
  destruct (Status.from_value s) as [|s'] eqn:Hs; [done |].
  intros [= <-]. unfold task_row. simpl.
  by rewrite (Priority_from_value_inr _ _ Hp), (Status_from_value_inr _ _ Hs).
Qed.

Lemma from_data_star_valid r :
  row_valid r → ∃ t, Task.from_data_star (Some r) = inr t.
Proof.
  intros [Hp Hs]. destruct r as [i ti p s c u]. simpl in *.
  destruct (Priority_from_value_in_range _ Hp) as [p' Hp'].
  destruct (Status_from_value_in_range _ Hs) as [s' Hs'].
  exists (Task.mk i ti p' s' c u).
  unfold Task.from_data_star, Task.from_data. simpl. by rewrite Hp', Hs'.
Qed.

Lemma tasks_of_rows_cons r rows :
  tasks_of_rows (r :: rows) =
  match Task.from_data_star (Some r) with
  | inl e => inl e
  | inr t =>
      match tasks_of_rows rows with
      | inl e => inl e
      | inr ts => inr (t :: ts)
      end
  end.
Proof. reflexivity. Qed.

Lemma tasks_of_rows_inr rows tasks :
  tasks_of_rows rows = inr tasks → rows = task_row <$> tasks.
Proof.
  revert tasks. induction rows as [|r rows IH]; intros tasks.
  - by intros [= <-].
  - rewrite tasks_of_rows_cons.
    destruct (Task.from_data_star (Some r)) as [|t] eqn:Hr; [done |].
    destruct (tasks_of_rows rows) as [|ts]; [done |].
    intros [= <-]. rewrite fmap_cons.
    f_equal; [by apply from_data_star_inr | by apply IH].
Qed.

Lemma tasks_of_rows_valid rows :
  Forall row_valid rows → ∃ tasks, tasks_of_rows rows = inr tasks.
Proof.
  induction 1 as [|r rows Hr _ [ts IH]]; [by eexists |].
  rewrite tasks_of_rows_cons.
  destruct (from_data_star_valid r Hr) as [t ->]. rewrite IH. by eexists.
Qed.

(** ** The ORDER BY comparison *)

Lemma term_compare_key t a b :
  term_compare t a b = (term_key t a ?= term_key t b).
Proof.
  unfold term_compare, term_key. destruct t as [k []]; simpl; [done |].
  by rewrite Z.compare_opp.
Qed.

Lemma order_le_nil a b : order_le [] a b.
Proof. done. Qed.

Lemma order_le_cons t rest a b :
  order_le (t :: rest) a b ↔
  term_key t a < term_key t b ∨
  (term_key t a = term_key t b ∧ order_le rest a b).
Proof.
  unfold order_le. simpl. rewrite term_compare_key.
  destruct (Z.compare_spec (term_key t a) (term_key t b)) as [Heq|Hlt|Hgt].
  - split; [by right | intros [?|[_ ?]]; [lia | done]].
  - split; [by left | done].
  - split; [done | intros [?|[? _]]; lia].
Qed.

#[global] Instance order_le_total terms : Total (order_le terms).
Proof.
  intros a b. induction terms as [|t rest IH]; [left; apply order_le_nil |].
  rewrite !order_le_cons.
  destruct (Z.lt_total (term_key t a) (term_key t b)) as [?|[?|?]];
    [by left; left | | by right; left].
  destruct IH; [left | right]; right; split; lia || done.
Qed.

#[global] Instance order_le_trans terms : Transitive (order_le terms).
Proof.
  intros a b c. induction terms as [|t rest IH]; [done |].
  rewrite !order_le_cons.
  intros [?|[? ?]] [?|[? ?]]; try (left; lia).
  right. split; [lia | by apply IH].
Qed.

Lemma StronglySorted_lookup {A} (R : relation A) l i j a b :
  StronglySorted R l → (i < j)%nat →
  l !! i = Some a → l !! j = Some b → R a b.
Proof.
  intros Hs. revert i j. induction Hs as [|x l _ IH Hx]; intros i j Hij Hi Hj.
  - by rewrite lookup_nil in Hi.
  - destruct j as [|j]; [lia |]. destruct i as [|i]; simpl in *.
    + injection Hi as <-. rewrite Forall_lookup in Hx. by eapply Hx.
    + eapply IH; [| done..]. lia.
Qed.

(** Rows tied on the first term of the query are ranked by the CASE
    expression, in the direction of the query. *)
Lemma list_order_tie sort_by desc a b :
  order_le (list_order sort_by desc) a b →
  sort_column sort_by a = sort_column sort_by b →
  match desc with
  | ASC => case_rank a ≤ case_rank b
  | DESC => case_rank b ≤ case_rank a
  end.
Proof.
  unfold list_order. rewrite !order_le_cons. unfold term_key. simpl.
  intros H Htie. destruct desc; lia.
Qed.

(** ** The SELECT of [List.run] *)

Lemma db_select_list_sorted wnc sort_by desc d :
  StronglySorted (order_le (list_order sort_by desc))
                 (db_select_list wnc sort_by desc d).
Proof. apply StronglySorted_merge_sort; apply _. Qed.

Lemma db_select_list_perm wnc sort_by desc d :
  db_select_list wnc sort_by desc d ≡ₚ filter (where_ok wnc) (all_rows d).
Proof. apply merge_sort_Permutation. Qed.

Lemma all_rows_valid d : db_valid d → Forall row_valid (all_rows d).
Proof.
  unfold db_valid, all_rows. rewrite map_Forall_to_list, Forall_fmap.
  intros H. eapply Forall_impl; [exact H |]. by intros [k c].
Qed.

Lemma db_select_list_valid wnc sort_by desc d :
  db_valid d → Forall row_valid (db_select_list wnc sort_by desc d).
Proof.
  intros Hd. rewrite db_select_list_perm.
  apply Forall_forall. intros r [_ Hr]%list_elem_of_filter.
  revert r Hr. apply Forall_forall. by apply all_rows_valid.
Qed.

(** ** [List.run] *)

Lemma set_db_same w : set_db (db w) w = w.
Proof. by destruct w. Qed.

Lemma case_rank_task_row t : case_rank (task_row t) = tiebreak_rank t.
Proof. by destruct t as [i ti [] [] c u]. Qed.

Lemma List_fetch_tasks_eq self w :
  List.fetch_tasks self w =
  let self' := List.flip_reverse self in
  let q := SELECT_list (negb (List.show_all self')) (List.sort_by self')
                       (List.desc self') in
  (log_stmt q w,
   match tasks_of_rows
           (db_select_list (negb (List.show_all self')) (List.sort_by self')
                           (List.desc self') (db w)) with
   | inl e => inl e
   | inr tasks => inr (self', tasks)
   end).
Proof.
  unfold List.fetch_tasks, mbind, M_bind, execute, lift, mret, M_ret, fetchall.
  destruct w as [d dd c so se ex]. simpl.
  by destruct (tasks_of_rows _).
Qed.

Lemma flip_reverse_sort_by self :
  List.sort_by (List.flip_reverse self) = List.sort_by self.
Proof. by destruct self as [[] r j a]. Qed.

Lemma flip_reverse_as_json self :
  List.as_json (List.flip_reverse self) = List.as_json self.
Proof. by destruct self as [[] r j a]. Qed.

Lemma flip_reverse_show_all self :
  List.show_all (List.flip_reverse self) = List.show_all self.
Proof. by destruct self as [[] r j a]. Qed.

Lemma flip_reverse_priority self :
  List.sort_by self = PRIORITY →
  List.reverse (List.flip_reverse self) = negb (List.reverse self).
Proof. destruct self as [k r j a]. simpl. by intros ->. Qed.

(** On a database that satisfies its CHECK constraints [List.run] returns:
    it executes one query, prints the tasks built from its rows and leaves
    the database alone. *)
Lemma List_run_valid self w :
  db_valid (db w) →
  let self' := List.flip_reverse self in
  let q := SELECT_list (negb (List.show_all self)) (List.sort_by self)
                       (List.desc self') in
  ∃ tasks,
    task_row <$> tasks =
      db_select_list (negb (List.show_all self)) (List.sort_by self)
                     (List.desc self') (db w) ∧
    List.run self w =
      (mkWorld (db w) (durable w) (clock w)
               (stdout w ++ [list_output (List.as_json self) tasks])
               (stderr w) (executed w ++ [q]),
       inr self').
Proof.
  intros Hd self' q.
  destruct (tasks_of_rows_valid
              (db_select_list (negb (List.show_all self)) (List.sort_by self)
                              (List.desc self') (db w))) as [tasks Ht].
  { by apply db_select_list_valid. }
  exists tasks. split; [symmetry; by apply tasks_of_rows_inr |].
  unfold List.run, mbind, M_bind at 1. rewrite List_fetch_tasks_eq. simpl.
  rewrite flip_reverse_show_all, flip_reverse_sort_by.
  fold self'. rewrite Ht. unfold list_output.
  replace (List.as_json self') with (List.as_json self)
    by (symmetry; apply flip_reverse_as_json).
  by destruct (List.as_json self).
Qed.

Lemma filter_where_ok_false (l : list Row) : filter (where_ok false) l = l.
Proof.
  induction l as [|r l IH]; [done |].
  rewrite filter_cons_True; [by f_equal | done].
Qed.

Lemma filter_where_ok_true (l : list Row) :
  filter (where_ok true) l =
  filter (λ r, r_status r ≠ Status.value Status.COMPLETED) l.
Proof. apply list_filter_iff. intros r. unfold where_ok. naive_solver. Qed.

(** C9.  On every database that satisfies its CHECK constraints, [List.run]
    returns and prints the tasks of its query.  Without [--all] the printed
    tasks are exactly the stored rows whose status is not COMPLETED (none of
    them is COMPLETED); with [--all] they are exactly all the stored rows,
    the COMPLETED ones included. *)
Theorem List_run_show_all self w :
  db_valid (db w) →
  ∃ tasks w',
    List.run self w = (w', inr (List.flip_reverse self)) ∧
    db w' = db w ∧
    stdout w' = stdout w ++ [list_output (List.as_json self) tasks] ∧
    (List.show_all self = false →
       Forall (λ t, Task.status t ≠ Status.COMPLETED) tasks ∧
       task_row <$> tasks ≡ₚ
         filter (λ r, r_status r ≠ Status.value Status.COMPLETED)
                (all_rows (db w))) ∧
    (List.show_all self = true → task_row <$> tasks ≡ₚ all_rows (db w)).
Proof.
  intros Hd. destruct (List_run_valid self w Hd) as (tasks & Hrows & Hrun).
  eexists tasks, _. split; [exact Hrun |]. simpl.
  split; [done |]. split; [done |].
  assert (Hperm : task_row <$> tasks ≡ₚ
            filter (where_ok (negb (List.show_all self))) (all_rows (db w))).
  { by rewrite Hrows, db_select_list_perm. }
  split; intros Hall; rewrite Hall in Hperm; simpl in Hperm.
  - split.
    + apply Forall_forall. intros t Ht.
      assert (Hin : task_row t ∈ filter (where_ok true) (all_rows (db w))).
      { rewrite <- Hperm. by apply list_elem_of_fmap_2. }
      apply list_elem_of_filter in Hin as [Hok _].
      intros Hs. apply Hok; [done |]. simpl. by rewrite Hs.
    + by rewrite Hperm, filter_where_ok_true.
  - by rewrite Hperm, filter_where_ok_false.
Qed.

Lemma List_run_show_all_witness :
  ∃ tasks w',
    List.run (List.mk PRIORITY false true false) demo_world
      = (w', inr (List.flip_reverse (List.mk PRIORITY false true false))) ∧
    db w' = db demo_world ∧
    stdout w' = stdout demo_world ++ [list_output true tasks] ∧
    (false = false →
       Forall (λ t, Task.status t ≠ Status.COMPLETED) tasks ∧
       task_row <$> tasks ≡ₚ
         filter (λ r, r_status r ≠ Status.value Status.COMPLETED)
                (all_rows (db demo_world))) ∧
    (false = true → task_row <$> tasks ≡ₚ all_rows (db demo_world)).
Proof.
  apply (List_run_show_all (List.mk PRIORITY false true false) demo_world).
  apply map_Forall_to_list. vm_compute. repeat constructor.
Defined.

(** C5 (the code at the failing input).  [list --all] with the default
    sort key on the table of three tasks: the query is ordered DESC, the
    tie-break term with it, and of the two HIGH tasks the COMPLETED one
    (id 1, rank 3) is listed before the PENDING one (id 2, rank 1), so the
    COMPLETED task is first and not at the end. *)
Theorem List_all_lists_completed_first :
  ∃ w' self' tasks,
    List.fetch_tasks (List.mk PRIORITY false false true) demo_world
      = (w', inr (self', tasks)) ∧
    executed w' = [SELECT_list false PRIORITY DESC] ∧
    Task.id <$> tasks = [1; 2; 3] ∧
    Task.status <$> tasks
      = [Status.COMPLETED; Status.PENDING; Status.PENDING] ∧
    ¬ tiebreak_respected ASC PRIORITY tasks.
Proof.
  eexists _, _, _. split; [vm_compute; reflexivity |].
  split; [reflexivity |]. split; [reflexivity |]. split; [reflexivity |].
  intros H.
  specialize (H 0%nat 1%nat _ _ ltac:(lia) eq_refl eq_refl eq_refl).
  vm_compute in H. by apply H.
Qed.

(** What the query does with the tie-break in general.  On every database
    that satisfies its CHECK constraints, [List.run] prints tasks among
    which those tied on the sort key are ordered by the tie-break rank
    (COMPLETED 3, HIGH and not completed 1, otherwise 2) in the direction
    of the query: non-decreasing when the query is ASC, non-increasing,
    with the COMPLETED tasks first, when it is DESC. *)
Lemma List_run_tiebreak self w :
  db_valid (db w) →
  ∃ tasks w',
    List.run self w = (w', inr (List.flip_reverse self)) ∧
    stdout w' = stdout w ++ [list_output (List.as_json self) tasks] ∧
    tiebreak_respected (List.desc (List.flip_reverse self))
                       (List.sort_by self) tasks.
Proof.
  intros Hd. destruct (List_run_valid self w Hd) as (tasks & Hrows & Hrun).
  eexists tasks, _. split; [exact Hrun |]. split; [done |].
  intros i j a b Hij Ha Hb Htie.
  rewrite <- !case_rank_task_row.
  apply (list_order_tie (List.sort_by self)); [| exact Htie].
  eapply (StronglySorted_lookup _ _ i j); [apply db_select_list_sorted | done | |];
    rewrite <- Hrows, list_lookup_fmap; [by rewrite Ha | by rewrite Hb].
Qed.

Lemma List_run_tiebreak_witness :
  ∃ tasks w',
    List.run (List.mk PRIORITY false false true) demo_world
      = (w', inr (List.mk PRIORITY true false true)) ∧
    stdout w' = stdout demo_world ++ [list_output false tasks] ∧
    tiebreak_respected DESC PRIORITY tasks.
Proof.
  apply (List_run_tiebreak (List.mk PRIORITY false false true) demo_world).
  apply map_Forall_to_list. vm_compute. repeat constructor.
Defined.

(** C10.  When the sort key is PRIORITY, each [List.run] negates [reverse]
    on the request object before it builds its query: on a database that
    satisfies its CHECK constraints, two runs of the same object execute
    queries of opposite directions, the first in the direction for the
    flags as given (DESC unless [--reverse]), and the second run leaves
    [reverse] as it was before the first. *)
Theorem List_run_twice_flips_direction self w :
  List.sort_by self = PRIORITY →
  db_valid (db w) →
  ∃ self1 w1 self2 w2 d1 d2,
    List.run self w = (w1, inr self1) ∧
    List.run self1 w1 = (w2, inr self2) ∧
    executed w1 =
      executed w ++ [SELECT_list (negb (List.show_all self)) PRIORITY d1] ∧
    executed w2 =
      executed w1 ++ [SELECT_list (negb (List.show_all self)) PRIORITY d2] ∧
    d1 = (if List.reverse self then ASC else DESC) ∧
    d2 = (if List.reverse self then DESC else ASC) ∧
    d1 ≠ d2 ∧
    List.reverse self1 = negb (List.reverse self) ∧
    List.reverse self2 = List.reverse self.
Proof.
  intros Hk Hd.
  destruct (List_run_valid self w Hd) as (tasks1 & _ & Hrun1).
  set (self1 := List.flip_reverse self) in *.
  set (w1 := mkWorld _ _ _ _ _ _) in Hrun1.
  assert (Hk1 : List.sort_by self1 = PRIORITY).
  { unfold self1. by rewrite flip_reverse_sort_by. }
  assert (Hd1 : db_valid (db w1)) by done.
  destruct (List_run_valid self1 w1 Hd1) as (tasks2 & _ & Hrun2).
  eexists self1, w1, _, _, _, _.
  split; [exact Hrun1 |]. split; [exact Hrun2 |].
  assert (Hr1 : List.reverse self1 = negb (List.reverse self)).
  { by apply flip_reverse_priority. }
  assert (Hr2 : List.reverse (List.flip_reverse self1) = List.reverse self).
  { rewrite (flip_reverse_priority self1 Hk1), Hr1. apply negb_involutive. }
  assert (Ha1 : List.show_all self1 = List.show_all self).
  { apply flip_reverse_show_all. }
  simpl. rewrite Hk, Hk1, Ha1. unfold List.desc. rewrite Hr1, Hr2.
  repeat split; try done; by destruct (List.reverse self).
Qed.

Lemma List_run_twice_flips_direction_witness :
  ∃ self1 w1 self2 w2 d1 d2,
    List.run (List.mk PRIORITY false true true) demo_world = (w1, inr self1) ∧
    List.run self1 w1 = (w2, inr self2) ∧
    executed w1 = executed demo_world ++ [SELECT_list false PRIORITY d1] ∧
    executed w2 = executed w1 ++ [SELECT_list false PRIORITY d2] ∧
    d1 = DESC ∧
    d2 = ASC ∧
    d1 ≠ d2 ∧
    List.reverse self1 = true ∧
    List.reverse self2 = false.
Proof.
  apply (List_run_twice_flips_direction
           (List.mk PRIORITY false true true) demo_world).
  - reflexivity.
  - apply map_Forall_to_list. vm_compute. repeat constructor.
Defined.

(** ** [Add.run] *)

Lemma execute_eq s w :
  execute s w =
  match run_stmt s (clock w) (db w) with
  | inl e => (log_stmt s w, inl e)
  | inr (d, c) => (set_db d (log_stmt s w), inr c)
  end.
Proof. reflexivity. Qed.

Lemma db_insert_enum now title p s d :
  db_insert now title (Priority.value p) (Status.value s) d =
  inr (mkDatabase
         (<[next_id d :=
              mkCells title (Priority.value p) (Status.value s) now now]>
            (task d))
         (next_id d),
       next_id d).
Proof.
  unfold db_insert. by rewrite Priority_value_check, Status_value_check.
Qed.

(** The id an INSERT assigns is larger than every id in the table and than
    every id assigned before. *)
Lemma next_id_fresh d : seq d < next_id d ∧ ∀ id c, task d !! id = Some c → id < next_id d.
Proof.
  unfold next_id.
  assert (Hmax : ∀ (l : list Z) z,
             z ≤ foldr Z.max z l ∧ ∀ x, x ∈ l → x ≤ foldr Z.max z l).
  { induction l as [|y l IH]; intros z; simpl.
    - split; [lia |]. by intros x ?%elem_of_nil.
    - destruct (IH z) as [Hz Hl]. split; [lia |].
      intros x [->|Hx]%elem_of_cons; [lia |]. specialize (Hl x Hx). lia. }
  destruct (Hmax ((map_to_list (task d)).*1) (seq d)) as [Hs Hl].
  split; [lia |]. intros id c Hc.
  assert (id ∈ (map_to_list (task d)).*1).
  { apply list_elem_of_fmap. exists (id, c). split; [done |].
    by apply elem_of_map_to_list. }
  specialize (Hl id H). lia.
Qed.

(** C3.  [Add.run] always returns.  The row it inserts has the current time
    of the insertion in both [created_at] and [updated_at], the insert is
    committed, and the task it then fetches and prints has
    [updated_at = created_at]. *)
Theorem Add_run_timestamps self w :
  ∃ w' t,
    Add.run self w = (w', inr ()) ∧
    task (db w') !! next_id (db w) =
      Some (mkCells (Add.title self) (Priority.value (Add.priority self))
                    (Status.value (Add.status self)) (clock w) (clock w)) ∧
    durable w' = db w' ∧
    t = Task.mk (next_id (db w)) (Add.title self) (Add.priority self)
                (Add.status self) (clock w) (clock w) ∧
    Task.updated_at t = Task.created_at t ∧
    stdout w' = stdout w ++ [JsonDumps (Task.as_dict t)].
Proof.
  eexists _, _.
  unfold Add.run, mbind, M_bind, execute. cbn [run_stmt clock log_stmt db].
  rewrite db_insert_enum.
  cbn [set_db commit lastrowid run_stmt db clock durable stdout stderr executed].
  unfold db_select_by_id. cbn [task]. rewrite lookup_insert_eq.
  unfold fetchone, lift. cbn [fetched head].
  unfold Task.from_data_star, Task.from_data, row_of.
  cbn [r_id r_title r_priority r_status r_created_at r_updated_at
       c_title c_priority c_status c_created_at c_updated_at].
  rewrite Priority_from_value_value, Status_from_value_value.
  unfold write_stderr, write_stdout.
  cbn [set_db log_stmt db clock durable stdout stderr executed].
  split; [reflexivity |]. cbn [db task durable stdout].
  by rewrite lookup_insert_eq.
Qed.

(** ** [Delete.run] *)

Lemma Delete_run_not_found self w :
  task (db w) !! Delete.id self = None →
  Delete.run self w =
    (mkWorld (db w) (durable w) (clock w) (stdout w)
       (stderr w ++
          [Text ("No task with ID " +:+ pretty (Delete.id self)
                   +:+ " found" +:+ nl)])
       (executed w ++ [SELECT_star_by_id (Delete.id self)]),
     inr ()).
Proof.
  intros Hnone. destruct w as [d dd c so se ex]. simpl in Hnone.
  unfold Delete.run, mbind, M_bind, execute.
  cbn [run_stmt clock log_stmt db]. unfold db_select_by_id. rewrite Hnone.
  reflexivity.
Qed.

Lemma Delete_run_found self w c :
  task (db w) !! Delete.id self = Some c →
  row_valid (row_of (Delete.id self) c) →
  ∃ t,
    task_row t = row_of (Delete.id self) c ∧
    Delete.run self w =
      (mkWorld (db_delete (Delete.id self) (db w))
               (db_delete (Delete.id self) (db w)) (clock w)
               (stdout w ++ [JsonDumps (Task.as_dict t)])
               (stderr w ++
                  [Text ("Deleted task with ID " +:+ pretty (Delete.id self)
                           +:+ nl +:+ nl)])
               (executed w ++ [SELECT_star_by_id (Delete.id self)]
                  ++ [DELETE_by_id (Delete.id self)]),
       inr ()).
Proof.
  intros Hsome Hvalid. destruct (from_data_star_valid _ Hvalid) as [t Ht].
  exists t. split; [symmetry; by apply from_data_star_inr |].
  destruct w as [d dd k so se ex]. simpl in Hsome.
  unfold Delete.run, mbind, M_bind, execute.
  cbn [run_stmt clock log_stmt db]. unfold db_select_by_id. rewrite Hsome.
  cbn [fetchone fetched head set_db]. unfold lift. rewrite Ht.
  cbn. by rewrite <- app_assoc.
Qed.



(** ** [Complete.run] and [Reopen.run] *)

Lemma db_update_status_missing s now id d :
  task d !! id = None → db_update_status s now id d = d.
Proof.
  intros Hnone. destruct d as [m q]. unfold db_update_status. simpl in *.
  f_equal. apply map_eq. intros j. rewrite lookup_alter.
  case_decide as Hj; [| done]. subst j. by rewrite Hnone.
Qed.

(** [Complete.run] on an id that matches no row: the UPDATE changes nothing,
    the SELECT fetches [None], and unpacking it raises before anything is
    written. *)
Lemma Complete_run_not_found self w :
  task (db w) !! Complete.id self = None →
  Complete.run self w =
    (mkWorld (db w) (db w) (clock w) (stdout w) (stderr w)
       ((executed w ++
           [UPDATE_status Status.COMPLETED (clock w) (Complete.id self)]) ++
          [SELECT_by_id (Some (Complete.id self))]),
     inl (TypeError
            "Task.from_data() argument after * must be an iterable, not NoneType")).
Proof.
  intros Hnone. destruct w as [d dd c so se ex]. simpl in Hnone.
  unfold Complete.run, mbind, M_bind, datetime_now, execute.
  cbn [run_stmt clock log_stmt db set_db commit durable stdout stderr executed].
  rewrite (db_update_status_missing _ _ _ _ Hnone).
  unfold db_select_by_id. by rewrite Hnone.
Qed.

(** C2 (the code at the failing input).  [Complete.run] with id 7, which
    matches no row of the table, raises [TypeError]; no not-found message
    has been written to stderr. *)
Theorem Complete_run_missing_id_raises :
  Complete.run (Complete.mk 7) demo_world =
    (mkWorld demo_db demo_db 100 [] []
       [UPDATE_status Status.COMPLETED 100 7; SELECT_by_id (Some 7)],
     inl (TypeError
            "Task.from_data() argument after * must be an iterable, not NoneType")).
Proof. by rewrite Complete_run_not_found. Qed.

(** [Complete.run] on an id that matches a valid row sets its status to
    COMPLETED and its [updated_at] to the current time, and prints it. *)
Lemma Complete_run_found self w c :
  task (db w) !! Complete.id self = Some c →
  check_0_2 (c_priority c) = true →
  ∃ w' t,
    Complete.run self w = (w', inr ()) ∧
    task (db w') !! Complete.id self =
      Some (mkCells (c_title c) (c_priority c) (Status.value Status.COMPLETED)
                    (c_created_at c) (clock w)) ∧
    durable w' = db w' ∧
    Task.status t = Status.COMPLETED ∧
    stdout w' = stdout w ++ [JsonDumps (Task.as_dict t)].
Proof.
  intros Hsome Hp. destruct (Priority_from_value_in_range _ Hp) as [p Hp'].
  destruct w as [d dd k so se ex]. simpl in Hsome.
  exists (mkWorld (db_update_status Status.COMPLETED k (Complete.id self) d)
                  (db_update_status Status.COMPLETED k (Complete.id self) d)
                  k
                  (so ++ [JsonDumps (Task.as_dict
                     (Task.mk (Complete.id self) (c_title c) p Status.COMPLETED
                              (c_created_at c) k))])
                  (se ++ [Text ("Completed task with ID "
                                  +:+ pretty (Complete.id self) +:+ nl +:+ nl)])
                  ((ex ++ [UPDATE_status Status.COMPLETED k (Complete.id self)])
                      ++ [SELECT_by_id (Some (Complete.id self))])).
  exists (Task.mk (Complete.id self) (c_title c) p Status.COMPLETED
                  (c_created_at c) k).
  assert (Hlk : task (db_update_status Status.COMPLETED k (Complete.id self) d)
                  !! Complete.id self =
                Some (mkCells (c_title c) (c_priority c)
                        (Status.value Status.COMPLETED) (c_created_at c) k)).
  { unfold db_update_status. cbn [task]. rewrite lookup_alter.
    case_decide; [| done]. by rewrite Hsome. }
  split.
  - unfold Complete.run, mbind, M_bind, datetime_now, execute.
    cbn [run_stmt clock log_stmt db set_db commit durable stdout stderr
         executed].
    unfold db_select_by_id. rewrite Hlk.
    unfold fetchone, lift. cbn [fetched head].
    unfold Task.from_data_star, Task.from_data, row_of.
    cbn [r_id r_title r_priority r_status r_created_at r_updated_at
         c_title c_priority c_status c_created_at c_updated_at].
    by rewrite Hp'.
  - cbn [db durable stdout clock]. by rewrite Hlk.
Qed.

Lemma Reopen_run_eq self w :
  Reopen.run self w =
    (mkWorld (db w) (durable w) (clock w)
             (stdout w ++ [Text ("Not implemented yet!" +:+ nl)])
             (stderr w) (executed w),
     inr ()).
Proof. reflexivity. Qed.

(** C1 (the code at the failing input).  Task 1 of the table is COMPLETED;
    [Reopen.run] with id 1 executes no statement and prints that it is not
    implemented: the task is still COMPLETED and its [updated_at] is what it
    was. *)
Theorem Reopen_run_leaves_task_completed :
  ∃ w',
    Reopen.run (Reopen.mk 1) demo_world = (w', inr ()) ∧
    task (db w') !! 1 =
      Some (mkCells "write report" 2 (Status.value Status.COMPLETED) 10 40) ∧
    executed w' = [] ∧
    stdout w' = [Text ("Not implemented yet!" +:+ nl)].
Proof. eexists. split; [apply Reopen_run_eq |]. by vm_compute. Qed.

(** ** [Task.from_data] and [Task.as_dict] *)

(** C7.  For an integer outside 0..2 given as priority or as status,
    [Task.from_data] raises the [ValueError] of the enumeration that rejects
    it (the validation error of the model): of [Priority] when the priority
    is out of range, of [Status] otherwise. *)
Theorem from_data_rejects_out_of_range id title p s c u :
  (p < 0 ∨ 2 < p) ∨ (s < 0 ∨ 2 < s) →
  Task.from_data id title p s c u =
    inl (if check_0_2 p then ValueError s "Status"
         else ValueError p "Priority").
Proof.
  intros H. unfold Task.from_data.
  destruct (check_0_2 p) eqn:Hp.
  - destruct (Priority_from_value_in_range p Hp) as [p' ->].
    apply check_0_2_cases in Hp.
    rewrite Status_from_value_out_of_range; [done | lia].
  - rewrite Priority_from_value_out_of_range; [done |].
    unfold check_0_2 in Hp. apply andb_false_iff in Hp.
    rewrite !Z.leb_gt in Hp. lia.
Qed.

Lemma from_data_rejects_out_of_range_witness :
  Task.from_data 1 "call bank" 3 0 20 20 = inl (ValueError 3 "Priority").
Proof.
  apply (from_data_rejects_out_of_range 1 "call bank" 3 0 20 20). lia.
Defined.

(** C4 as stated fails: the task built from priority 0 and status 0 has
    ["LOW"] and ["PENDING"] in its dictionary, not ["Low"] and
    ["Pending"]. *)
Lemma as_dict_display_names_counterexample :
  ∃ t,
    Task.from_data 1 "call bank" 0 0 20 20 = inr t ∧
    dict_get "priority" (Task.as_dict t)
      ≠ Some (VStr (Lit (spec_display_names 0).1)) ∧
    dict_get "status" (Task.as_dict t)
      ≠ Some (VStr (Lit (spec_display_names 0).2)).
Proof. eexists. split; [reflexivity |]. by vm_compute. Qed.

(** C4, amended.  For priority and status integers in 0..2,
    [Task.from_data] returns a task whose enumeration members have these
    values and whose dictionary gives, under ["priority"] and ["status"],
    the member names of the fixed table 0: LOW/PENDING, 1: MEDIUM/ACTIVE,
    2: HIGH/COMPLETED. *)
Theorem from_data_as_dict_names id title p s c u :
  0 ≤ p ≤ 2 → 0 ≤ s ≤ 2 →
  ∃ t,
    Task.from_data id title p s c u = inr t ∧
    Priority.value (Task.priority t) = p ∧
    Status.value (Task.status t) = s ∧
    dict_get "priority" (Task.as_dict t)
      = Some (VStr (Lit (member_names p).1)) ∧
    dict_get "status" (Task.as_dict t)
      = Some (VStr (Lit (member_names s).2)).
Proof.
  intros Hp Hs.
  assert (Hp' : p = 0 ∨ p = 1 ∨ p = 2) by lia.
  assert (Hs' : s = 0 ∨ s = 1 ∨ s = 2) by lia.
  destruct Hp' as [-> | [-> | ->]], Hs' as [-> | [-> | ->]];
    eexists; (split; [reflexivity |]); by vm_compute.
Qed.

Lemma from_data_as_dict_names_witness :
  ∃ t,
    Task.from_data 2 "call bank" 2 0 20 20 = inr t ∧
    Priority.value (Task.priority t) = 2 ∧
    Status.value (Task.status t) = 0 ∧
    dict_get "priority" (Task.as_dict t) = Some (VStr (Lit "HIGH")) ∧
    dict_get "status" (Task.as_dict t) = Some (VStr (Lit "PENDING")).
Proof.
  apply (from_data_as_dict_names 2 "call bank" 2 0 20 20); lia.
Defined.

(** ** [render_table] *)

Lemma max_of_ge n xs : (n ≤ max_of n xs)%nat.
Proof. unfold max_of. induction xs as [|x xs IH]; simpl; lia. Qed.

Lemma max_of_elem_le n xs x : x ∈ xs → (x ≤ max_of n xs)%nat.
Proof.
  unfold max_of. induction xs as [|y xs IH]; [by intros ?%elem_of_nil |].
  intros [-> | Hx]%elem_of_cons; simpl; [lia |]. specialize (IH Hx). lia.
Qed.

Lemma max_of_attained n xs : max_of n xs = n ∨ max_of n xs ∈ xs.
Proof.
  induction xs as [|y xs IH]; [by left |].
  change (max_of n (y :: xs)) with (Nat.max y (max_of n xs)).
  destruct (Nat.max_spec y (max_of n xs)) as [[_ ->] | [_ ->]].
  - destruct IH as [IH | IH]; [by left | right; apply elem_of_cons; by right].
  - right. apply elem_of_cons. by left.
Qed.

(** With no rows every width is the length of its header label. *)
Lemma table_widths_empty :
  table_widths [] = mkWidths 2 5 8 6 10 10 ∧
  String.length <$> ["ID"; "Title"; "Priority"; "Status"; "Created at";
                     "Updated at"]
    = [2; 5; 8; 6; 10; 10]%nat.
Proof. by vm_compute. Qed.

(** The Title width is the maximum of the length of ["Title"] and of the
    title lengths of the rows; the timestamp widths are 24 with a row. *)
Lemma table_widths_title tasks :
  let w := width_title (table_widths tasks) in
  (String.length "Title" ≤ w)%nat ∧
  (∀ t, t ∈ tasks → (String.length (Task.title t) ≤ w)%nat) ∧
  (w = String.length "Title" ∨
   ∃ t, t ∈ tasks ∧ w = String.length (Task.title t)).
Proof.
  simpl. split; [apply (max_of_ge 5) |]. split.
  - intros t Ht. apply max_of_elem_le.
    apply list_elem_of_fmap. by exists t.
  - destruct (max_of_attained 5
                ((λ t, String.length (Task.title t)) <$> tasks)) as [H | H];
      [by left | right].
    apply list_elem_of_fmap in H as (t & Heq & Ht). by exists t.
Qed.

Lemma table_widths_timestamps t tasks :
  width_created_at (table_widths (t :: tasks)) = 24%nat ∧
  width_updated_at (table_widths (t :: tasks)) = 24%nat.
Proof. done. Qed.

(** C6 (the code at the failing input).  For the one-row table of a task
    whose id is 100, the ID width is 2, the number of digits of the row
    count against the length of ["ID"], while the ID cell of the row is
    ["100"], of length 3. *)
Theorem table_widths_id_narrower_than_cell :
  let t := Task.mk 100 "call bank" Priority.HIGH Status.PENDING 20 20 in
  width_id (table_widths [t]) = 2%nat ∧
  render_table [t] !! 3%nat = Some (Fields (table_widths [t]) (task_cells t)) ∧
  task_cells t !! 0%nat = Some (Lit "100") ∧
  String.length "100" = 3%nat.
Proof. by vm_compute. Qed.

(** ** The CHECK constraints are kept by every statement *)

Lemma elem_of_all_rows d r :
  r ∈ all_rows d ↔ ∃ id c, task d !! id = Some c ∧ r = row_of id c.
Proof.
  unfold all_rows. rewrite list_elem_of_fmap. split.
  - intros ([id c] & -> & Hin). exists id, c.
    split; [by apply elem_of_map_to_list | done].
  - intros (id & c & Hc & ->). exists (id, c).
    split; [done | by apply elem_of_map_to_list].
Qed.

Lemma db_valid_empty q : db_valid (mkDatabase ∅ q).
Proof. apply map_Forall_empty. Qed.

Lemma db_insert_valid now title p s d d' id :
  db_valid d → db_insert now title p s d = inr (d', id) → db_valid d'.
Proof.
  unfold db_insert, db_valid. intros Hd.
  destruct (check_0_2 p && check_0_2 s) eqn:Hc; [| done].
  intros [= <- <-]. cbn [task]. apply map_Forall_insert_2; [| done].
  by apply andb_true_iff in Hc.
Qed.

Lemma db_update_status_valid st now id d :
  db_valid d → db_valid (db_update_status st now id d).
Proof.
  unfold db_update_status, db_valid. cbn [task]. intros Hd j c.
  rewrite lookup_alter. case_decide as Hj; [| by apply Hd].
  destruct (task d !! id) as [c0|] eqn:Hc0; [| done].
  intros [= <-]. destruct (Hd _ _ Hc0) as [Hp _].
  split; [exact Hp | apply Status_value_check].
Qed.

Lemma db_delete_valid id d : db_valid d → db_valid (db_delete id d).
Proof. unfold db_delete, db_valid. cbn [task]. apply map_Forall_delete. Qed.

(** Every statement that the subcommands execute keeps the constraints. *)
Lemma run_stmt_valid s now d d' c :
  db_valid d → run_stmt s now d = inr (d', c) → db_valid d'.
Proof.
  intros Hd. destruct s as [ti p st | st u id | [id|] | id | id | b k dir];
    simpl.
  - destruct (db_insert now ti p st d) as [|[d1 i]] eqn:Hi; [done |].
    intros [= <- _]. by eapply db_insert_valid.
  - intros [= <- _]. by apply db_update_status_valid.
  - by intros [= <- _].
  - by intros [= <- _].
  - by intros [= <- _].
  - intros [= <- _]. by apply db_delete_valid.
  - by intros [= <- _].
Qed.

(** ** Scenarios *)

(** [add "Buy milk"] with the defaults, then [list --json]: one task, LOW
    and PENDING. *)
Example add_then_list :
  let run :=
    _ ← Add.run (Add.mk "Buy milk" Priority.LOW Status.PENDING);
    List.run (List.mk PRIORITY false true false) in
  stdout (run empty_world).1 !! 1%nat =
    Some (JsonDumpsList
            [Task.as_dict
               (Task.mk 1 "Buy milk" Priority.LOW Status.PENDING 50 50)]).
Proof. by vm_compute. Qed.

(** Three tasks of priorities medium, low and high: the default listing
    has HIGH first and LOW last. *)
Example list_high_first :
  let run :=
    _ ← Add.run (Add.mk "a" Priority.MEDIUM Status.PENDING);
    _ ← Add.run (Add.mk "b" Priority.LOW Status.PENDING);
    _ ← Add.run (Add.mk "c" Priority.HIGH Status.PENDING);
    List.fetch_tasks (List.mk PRIORITY false false false) in
  listed_ids (run empty_world).2 = inr [3; 1; 2].
Proof. by vm_compute. Qed.

(** [list --json] with no task prints the empty array. *)
Example list_json_empty :
  stdout (List.run (List.mk PRIORITY false true false) empty_world).1
    = [JsonDumpsList []].
Proof. by vm_compute. Qed.

(** [complete 2], then [list] without [--all]: task 2 is no longer
    listed. *)
Example complete_then_list :
  let run :=
    _ ← Complete.run (Complete.mk 2);
    List.fetch_tasks (List.mk PRIORITY false false false) in
  listed_ids (run demo_world).2 = inr [3].
Proof. by vm_compute. Qed.

(** * The rest of the program: properties *)

(** ** verbosity.py *)

(** X1.  [Verbosity.from_args] raises exactly when [quiet] is negative, or
    [quiet] is 0 and [verbose] is negative: a negative [verbose] goes
    unnoticed as soon as [quiet] is positive. *)
Theorem Verbosity_from_args_raises_iff verbose quiet :
  (∃ e, Verbosity.from_args verbose quiet = inl e) ↔
  quiet < 0 ∨ (quiet = 0 ∧ verbose < 0).
Proof.
  unfold Verbosity.from_args.
  destruct (Z.ltb_spec quiet 0); [split; [lia | eauto] |].
  destruct (Z.eqb_spec quiet 0) as [-> | ?].
  - destruct (Z.ltb_spec verbose 0); [split; [lia | eauto] |].
    split; [| lia]. intros [e He].
    destruct (verbose =? 0), (verbose =? 1); discriminate.
  - split; [| lia]. intros [e He]. destruct (quiet =? 1); discriminate.
Qed.

(** X2.  [quiet] has priority over [verbose]: with [quiet] at least 1 the
    result is QUIET for 1 and SILENT from 2 on, whatever [verbose] is. *)
Theorem Verbosity_from_args_quiet_first verbose quiet :
  1 ≤ quiet →
  Verbosity.from_args verbose quiet =
    inr (if quiet =? 1 then Verbosity.QUIET else Verbosity.SILENT).
Proof.
  intros H. unfold Verbosity.from_args.
  destruct (Z.ltb_spec quiet 0); [lia |].
  destruct (Z.eqb_spec quiet 0); [lia |]. by destruct (quiet =? 1).
Qed.

Lemma Verbosity_from_args_quiet_first_witness :
  Verbosity.from_args (-3) 1 = inr Verbosity.QUIET.
Proof. apply (Verbosity_from_args_quiet_first (-3) 1). lia. Defined.

(** X3.  More [-v] never raises the threshold and more [-q] never lowers
    it: for counts that are not negative, [from_args] returns, and the
    level for more [verbose] and less [quiet] is at most the level for less
    [verbose] and more [quiet]. *)
Theorem Verbosity_to_level_monotone v v' q q' :
  0 ≤ v ≤ v' → 0 ≤ q' ≤ q →
  ∃ a b,
    Verbosity.from_args v q = inr a ∧
    Verbosity.from_args v' q' = inr b ∧
    level_le (Verbosity.to_level b) (Verbosity.to_level a).
Proof.
  intros Hv Hq. unfold Verbosity.from_args.
  destruct (Z.ltb_spec q 0); [lia |]. destruct (Z.ltb_spec q' 0); [lia |].
  destruct (Z.ltb_spec v 0); [lia |]. destruct (Z.ltb_spec v' 0); [lia |].
  destruct (Z.eqb_spec q 0), (Z.eqb_spec q' 0), (Z.eqb_spec q 1),
    (Z.eqb_spec q' 1), (Z.eqb_spec v 0), (Z.eqb_spec v' 0),
    (Z.eqb_spec v 1), (Z.eqb_spec v' 1);
    try lia; eexists _, _; (split; [reflexivity |]);
    (split; [reflexivity |]); by vm_compute.
Qed.

Lemma Verbosity_to_level_monotone_witness :
  ∃ a b,
    Verbosity.from_args 1 0 = inr a ∧
    Verbosity.from_args 2 0 = inr b ∧
    level_le (Verbosity.to_level b) (Verbosity.to_level a).
Proof. apply (Verbosity_to_level_monotone 1 2 0 0); lia. Defined.

(** X4.  The name [to_level_name] gives a verbosity is a directive that
    [level_from_directive] reads back as the level of [to_level]; SILENT,
    which has no level, has no name. *)
Theorem Verbosity_level_name_round_trip (v : Verbosity.t) :
  match Verbosity.to_level v with
  | None => Verbosity.to_level_name v = None
  | Some level =>
      ∃ name,
        Verbosity.to_level_name v = Some name ∧
        level_from_directive name = inr (Some level)
  end.
Proof. destruct v; simpl; [done | ..]; by eexists. Qed.

(** ** logger.py *)

(** X5.  For an ASCII directive, [level_from_directive] returns exactly
    when the directive is, up to case, one of OFF, DEBUG, INFO, WARNING,
    WARN, ERROR, CRITICAL and FATAL; otherwise it raises a [ValueError]
    that quotes the directive as it was given. *)
Theorem level_from_directive_accepts directive :
  is_ascii_str directive →
  ((∃ r, level_from_directive directive = inr r) ↔
   str_upper directive ∈
     ["OFF"; "DEBUG"; "INFO"; "WARNING"; "WARN"; "ERROR"; "CRITICAL";
      "FATAL"]) ∧
  (∀ e, level_from_directive directive = inl e →
        e = ValueErrorMsg ("invalid log level directive: " +:+ directive)).
Proof.
  intros _. unfold level_from_directive. cbv zeta.
  generalize (str_upper directive). intros d. split.
  - rewrite !elem_of_cons, elem_of_nil.
    case_string_eqb; simpl;
      (split;
         [ intros [r Hr]; first [discriminate | tauto]
         | intros Hd; first [by eexists | exfalso; tauto] ]).
  - intros e. case_string_eqb; simpl; intros H; by inversion H.
Qed.

Lemma level_from_directive_accepts_witness :
  ((∃ r, level_from_directive "Warn" = inr r) ↔
   str_upper "Warn" ∈
     ["OFF"; "DEBUG"; "INFO"; "WARNING"; "WARN"; "ERROR"; "CRITICAL";
      "FATAL"]) ∧
  (∀ e, level_from_directive "Warn" = inl e →
        e = ValueErrorMsg ("invalid log level directive: " +:+ "Warn")).
Proof.
  apply (level_from_directive_accepts "Warn"). vm_compute. repeat constructor.
Defined.

(** X6.  A level that [level_from_directive] returns is one of the five
    levels of [logging], and the name [logging] has for it is a directive
    for the same level: the aliases WARN and FATAL and the lower-case
    spellings all come back as WARNING and CRITICAL. *)
Theorem level_from_directive_canonical directive level :
  level_from_directive directive = inr (Some level) →
  level ∈ [logging.DEBUG; logging.INFO; logging.WARNING; logging.ERROR;
           logging.CRITICAL] ∧
  level_from_directive (logging.getLevelName level) = inr (Some level).
Proof.
  unfold level_from_directive at 1. cbv zeta.
  generalize (str_upper directive). intros d.
  case_string_eqb; simpl; intros [= <-]; (split; [set_solver | done]).
Qed.

Lemma level_from_directive_canonical_witness :
  logging.WARNING ∈ [logging.DEBUG; logging.INFO; logging.WARNING;
                     logging.ERROR; logging.CRITICAL] ∧
  level_from_directive (logging.getLevelName logging.WARNING)
    = inr (Some logging.WARNING).
Proof.
  apply (level_from_directive_canonical "warn" logging.WARNING). reflexivity.
Defined.

(** ** __main__.py: the logging set up by [main] *)

(** X7.  As soon as [-v] or [-q] is given, the environment is not looked
    at: [main] sets the logger up from the flags alone and does not raise,
    whatever TODO_LOG holds. *)
Theorem main_log_setup_flags_override_env verbose quiet env :
  0 ≤ verbose → 0 ≤ quiet → 0 < verbose ∨ 0 < quiet →
  ∃ setup,
    main_log_setup verbose quiet env = inr setup ∧
    ∀ env', main_log_setup verbose quiet env' = inr setup.
Proof.
  intros Hv Hq Hflag. unfold main_log_setup, Verbosity.from_args.
  destruct (Z.ltb_spec quiet 0); [lia |].
  destruct (Z.ltb_spec verbose 0); [lia |].
  destruct (Z.eqb_spec quiet 0), (Z.eqb_spec quiet 1),
    (Z.eqb_spec verbose 0), (Z.eqb_spec verbose 1); try lia;
    by eexists.
Qed.

Lemma main_log_setup_flags_override_env_witness :
  ∃ setup,
    main_log_setup 1 0 {[ "TODO_LOG" := "nonsense" ]} = inr setup ∧
    ∀ env', main_log_setup 1 0 env' = inr setup.
Proof.
  apply (main_log_setup_flags_override_env 1 0); lia.
Defined.

(** Without [-v] and [-q], TODO_LOG decides: unset, the threshold is
    WARNING; set, the logger is set up as [level_from_directive] reads the
    value, disabled for OFF, and an invalid value makes [main] raise before
    any subcommand runs. *)
Lemma main_log_setup_no_flags env :
  main_log_setup 0 0 env =
    match env !! "TODO_LOG" with
    | None => inr (Threshold logging.WARNING)
    | Some directive =>
        match level_from_directive directive with
        | inl e => inl e
        | inr None => inr Disabled
        | inr (Some level) => inr (Threshold level)
        end
    end.
Proof.
  unfold main_log_setup, getenv. simpl.
  by destruct (env !! "TODO_LOG").
Qed.

(** ** subcommand.py *)

Lemma char_lower_not_upper c : in_ascii_uppercase (char_lower c) = false.
Proof. by destruct c as [[] [] [] [] [] [] [] []]. Qed.

Lemma char_lower_fixed c : in_ascii_uppercase c = false → char_lower c = c.
Proof. unfold char_lower. by intros ->. Qed.

Lemma char_lower_inj c d :
  in_ascii_uppercase c = true → in_ascii_uppercase d = true →
  char_lower c = char_lower d → c = d.
Proof.
  unfold char_lower, in_ascii_uppercase. intros Hc Hd. rewrite Hc, Hd.
  apply andb_true_iff in Hc as [_ Hc%Nat.leb_le].
  apply andb_true_iff in Hd as [_ Hd%Nat.leb_le].
  intros H. apply (f_equal Ascii.nat_of_ascii) in H.
  rewrite !Ascii.nat_ascii_embedding in H by lia.
  rewrite <- (Ascii.ascii_nat_embedding c), <- (Ascii.ascii_nat_embedding d).
  f_equal. lia.
Qed.

Lemma hyphen_not_upper : in_ascii_uppercase hyphen = false.
Proof. reflexivity. Qed.

Lemma kebab_tail_count_upper s : count_upper (kebab_tail s) = 0%nat.
Proof.
  induction s as [|c s IH]; [done |]. simpl.
  destruct (in_ascii_uppercase c) eqn:Hc; simpl.
  - by rewrite char_lower_not_upper, IH.
  - by rewrite Hc, IH.
Qed.

Lemma kebab_tail_length s :
  String.length (kebab_tail s) = (String.length s + count_upper s)%nat.
Proof.
  induction s as [|c s IH]; [done |]. simpl.
  destruct (in_ascii_uppercase c); simpl; rewrite IH; lia.
Qed.

Lemma kebab_tail_fixed s : count_upper s = 0%nat → kebab_tail s = s.
Proof.
  induction s as [|c s IH]; [done |]. simpl.
  destruct (in_ascii_uppercase c); [done |]. intros H. by rewrite IH.
Qed.

(** X8.  The dispatch name of an ASCII class name has no upper-case ASCII
    letter, and is longer than the class name by one hyphen for each
    upper-case letter after the first character; the empty name stays
    empty. *)
Theorem kebab_case_lower_and_length name :
  is_ascii_str name →
  count_upper (_camel_case_to_kebab_case name) = 0%nat ∧
  String.length (_camel_case_to_kebab_case name) =
    (String.length name + count_upper (str_tail name))%nat ∧
  (name = "" → _camel_case_to_kebab_case name = "").
Proof.
  intros _. destruct name as [|c rest]; [done |].
  cbn [_camel_case_to_kebab_case count_upper String.length].
  rewrite char_lower_not_upper, kebab_tail_count_upper, kebab_tail_length.
  done.
Qed.

Lemma kebab_case_lower_and_length_witness :
  count_upper (_camel_case_to_kebab_case "HTTPServer") = 0%nat ∧
  String.length (_camel_case_to_kebab_case "HTTPServer") =
    (String.length "HTTPServer"
       + count_upper (str_tail "HTTPServer"))%nat ∧
  ("HTTPServer" = "" → _camel_case_to_kebab_case "HTTPServer" = "").
Proof.
  apply (kebab_case_lower_and_length "HTTPServer").
  vm_compute. repeat constructor.
Defined.

(** X9.  Converting a dispatch name again changes nothing. *)
Theorem kebab_case_idempotent name :
  is_ascii_str name →
  _camel_case_to_kebab_case (_camel_case_to_kebab_case name) =
    _camel_case_to_kebab_case name.
Proof.
  intros _. destruct name as [|c rest]; [done |].
  cbn [_camel_case_to_kebab_case].
  rewrite (char_lower_fixed _ (char_lower_not_upper c)).
  by rewrite (kebab_tail_fixed _ (kebab_tail_count_upper rest)).
Qed.

Lemma kebab_case_idempotent_witness :
  _camel_case_to_kebab_case (_camel_case_to_kebab_case "HTTPServer") =
    _camel_case_to_kebab_case "HTTPServer".
Proof.
  apply (kebab_case_idempotent "HTTPServer"). vm_compute. repeat constructor.
Defined.

Lemma kebab_tail_inj a b :
  Forall (λ x, x ≠ hyphen) (String.list_ascii_of_string a) →
  Forall (λ x, x ≠ hyphen) (String.list_ascii_of_string b) →
  kebab_tail a = kebab_tail b → a = b.
Proof.
  revert b. induction a as [|c a IH]; intros [|d b] Ha Hb; simpl.
  - done.
  - by destruct (in_ascii_uppercase d).
  - by destruct (in_ascii_uppercase c).
  - simpl in Ha, Hb. apply Forall_cons in Ha as [Hc Ha].
    apply Forall_cons in Hb as [Hd Hb].
    destruct (in_ascii_uppercase c) eqn:Ec, (in_ascii_uppercase d) eqn:Ed.
    + intros [= Hcd Hab]. f_equal; [by apply char_lower_inj | by apply IH].
    + intros [= Hh _]. by destruct Hd.
    + intros [= Hh _]. by destruct Hc.
    + intros [= -> Hab]. f_equal. by apply IH.
Qed.

Lemma kebab_case_names_differ a b :
  camel_case a → camel_case b →
  _camel_case_to_kebab_case a = _camel_case_to_kebab_case b → a = b.
Proof.
  destruct a as [|c a], b as [|d b]; try done.
  intros [Hc Ha] [Hd Hb]. cbn [_camel_case_to_kebab_case].
  intros [= Hcd Hab]. f_equal; [by apply char_lower_inj |].
  by apply kebab_tail_inj.
Qed.

(** X10.  Two different CamelCase class names never get the same dispatch
    name: the conversion is injective on them. *)
Theorem kebab_case_injective a b :
  camel_case a → camel_case b → a ≠ b →
  _camel_case_to_kebab_case a ≠ _camel_case_to_kebab_case b.
Proof. intros Ha Hb Hne Heq. by apply Hne, kebab_case_names_differ. Qed.

Lemma kebab_case_injective_witness :
  _camel_case_to_kebab_case "List" ≠ _camel_case_to_kebab_case "ListAll".
Proof.
  apply (kebab_case_injective "List" "ListAll").
  - split; [reflexivity |]. repeat constructor; discriminate.
  - split; [reflexivity |]. repeat constructor; discriminate.
  - discriminate.
Defined.

Lemma register_all_cons cls handlers registry :
  register_all (cls :: handlers) registry =
  register_all handlers (register cls registry).
Proof. reflexivity. Qed.

Lemma register_all_other handlers registry name :
  name ∉ _camel_case_to_kebab_case <$> handlers →
  register_all handlers registry !! name = registry !! name.
Proof.
  revert registry. induction handlers as [|h hs IH]; intros reg Hn; [done |].
  rewrite register_all_cons, IH.
  - unfold register. apply lookup_insert_ne. intros Heq. apply Hn.
    rewrite fmap_cons, Heq. apply list_elem_of_here.
  - intros Hin. apply Hn. rewrite fmap_cons. by apply list_elem_of_further.
Qed.

Lemma kebab_names_NoDup handlers :
  Forall camel_case handlers → NoDup handlers →
  NoDup (_camel_case_to_kebab_case <$> handlers).
Proof.
  intros Hc Hnd. induction Hnd as [|h hs Hh Hnd IH]; [constructor |].
  apply Forall_cons in Hc as [Hch Hcs]. rewrite fmap_cons. constructor.
  - intros (h' & Heq & Hin)%list_elem_of_fmap. apply Hh.
    rewrite Forall_forall in Hcs.
    by rewrite (kebab_case_names_differ h h' Hch (Hcs _ Hin) Heq).
  - by apply IH.
Qed.

(** X11.  After the handlers are registered, each of them is found under
    its own dispatch name, and the registry has no other name than what it
    had before and the dispatch names of the handlers; this holds for
    handlers with CamelCase names that differ from each other, such as the
    six of [register_subcommands]. *)
Theorem register_all_dispatch handlers registry :
  Forall camel_case handlers → NoDup handlers →
  (∀ cls, cls ∈ handlers →
     register_all handlers registry !! _camel_case_to_kebab_case cls
       = Some cls) ∧
  (∀ name, name ∉ _camel_case_to_kebab_case <$> handlers →
     register_all handlers registry !! name = registry !! name).
Proof.
  intros Hc Hnd. split; [| intros name; apply register_all_other].
  pose proof (kebab_names_NoDup handlers Hc Hnd) as Hk. clear Hc Hnd.
  revert registry. induction handlers as [|h hs IH]; intros reg cls Hin.
  - by apply elem_of_nil in Hin.
  - rewrite fmap_cons in Hk. apply NoDup_cons in Hk as [Hh Hk].
    rewrite register_all_cons. apply elem_of_cons in Hin as [-> | Hin].
    + rewrite register_all_other by done. apply lookup_insert_eq.
    + by apply IH.
Qed.

Lemma register_all_dispatch_witness :
  (∀ cls, cls ∈ subcommand_handlers →
     register_all subcommand_handlers ∅ !! _camel_case_to_kebab_case cls
       = Some cls) ∧
  (∀ name, name ∉ _camel_case_to_kebab_case <$> subcommand_handlers →
     register_all subcommand_handlers ∅ !! name = (∅ : gmap string string) !! name).
Proof.
  apply (register_all_dispatch subcommand_handlers ∅).
  - repeat constructor; discriminate.
  - apply (bool_decide_unpack (NoDup subcommand_handlers)). by vm_compute.
Defined.

(** The dispatch names of the six handlers. *)
Example subcommand_names :
  _camel_case_to_kebab_case <$> subcommand_handlers
    = ["add"; "complete"; "delete"; "edit"; "list"; "reopen"].
Proof. reflexivity. Qed.

(** ** commands/add.py: [Add.from_args] *)

Lemma Priority_getitem_name p : Priority_getitem (Priority.name p) = inr p.
Proof. by destruct p. Qed.

Lemma Status_getitem_name s : Status_getitem (Status.name s) = inr s.
Proof. by destruct s. Qed.

Lemma Priority_getitem_inr name p :
  Priority_getitem name = inr p → Priority.name p = name.
Proof.
  unfold Priority_getitem. case_string_eqb; intros [= <-]; by subst.
Qed.

Lemma Status_getitem_inr name s :
  Status_getitem name = inr s → Status.name s = name.
Proof.
  unfold Status_getitem. case_string_eqb; intros [= <-]; by subst.
Qed.

(** X12.  [Add.from_args] builds a request exactly from the namespaces whose
    priority and status are among the choices of the two options, which are
    the member names in upper case; the request then has the title as given
    and the members of those names.  A lower-case name is a [KeyError]. *)
Theorem Add_from_args_accepts_choices args :
  (∀ a, Add_from_args args = inr a ↔
        Add.title a = args_title args ∧
        Priority.name (Add.priority a) = args_priority args ∧
        Status.name (Add.status a) = args_status args) ∧
  ((∃ a, Add_from_args args = inr a) ↔
   args_priority args ∈ priority_choices ∧ args_status args ∈ status_choices) ∧
  Add_from_args (mkAddArgs (args_title args) "low" "pending")
    = inl (KeyError "low").
Proof.
  assert (Hiff : ∀ a, Add_from_args args = inr a ↔
        Add.title a = args_title args ∧
        Priority.name (Add.priority a) = args_priority args ∧
        Status.name (Add.status a) = args_status args).
  { intros [ti p s]. unfold Add_from_args. simpl. split.
    - destruct (Priority_getitem _) as [|p'] eqn:Hp; [done |].
      destruct (Status_getitem _) as [|s'] eqn:Hs; [done |].
      intros [= <- <- <-].
      by rewrite (Priority_getitem_inr _ _ Hp), (Status_getitem_inr _ _ Hs).
    - intros (<- & <- & <-).
      by rewrite Priority_getitem_name, Status_getitem_name. }
  split; [exact Hiff |]. split; [| done].
  split.
  - intros [a (_ & Hp & Hs)%Hiff]. rewrite <- Hp, <- Hs.
    unfold priority_choices, status_choices.
    split; apply list_elem_of_fmap; eexists; (split; [done |]).
    + destruct (Add.priority a); rewrite !elem_of_cons; auto.
    + destruct (Add.status a); rewrite !elem_of_cons; auto.
  - intros [(p & Hp & _)%list_elem_of_fmap (s & Hs & _)%list_elem_of_fmap].
    exists (Add.mk (args_title args) p s). by apply Hiff.
Qed.

(** ** __main__.py: the exit code *)

(** X13.  [main] reports a missing id of [delete] by the message alone: for
    an id within the signed 64-bit range of SQLite's INTEGER (outside of it
    [sqlite3] refuses to bind the id and [main] ends in [OverflowError]),
    the run writes the message to stderr, leaves the table as it was, and
    [main] returns [ExitCode.SUCCESS], the exit code 0 of a run that
    deleted something. *)
Theorem main_delete_missing_id_succeeds self w :
  int64 (Delete.id self) →
  task (db w) !! Delete.id self = None →
  ∃ w',
    main_run (DeleteRequest self) w = (w', inr ExitCode.SUCCESS) ∧
    ExitCode.value ExitCode.SUCCESS = 0 ∧
    db w' = db w ∧ durable w' = durable w ∧ stdout w' = stdout w ∧
    stderr w' =
      stderr w ++
        [Text ("No task with ID " +:+ pretty (Delete.id self)
                 +:+ " found" +:+ nl)].
Proof.
  intros _ Hnone. eexists. split.
  - unfold main_run, mbind, M_bind at 1. cbn [Request_run].
    rewrite (Delete_run_not_found self w Hnone). reflexivity.
  - done.
Qed.

Lemma main_delete_missing_id_succeeds_witness :
  ∃ w',
    main_run (DeleteRequest (Delete.mk 7)) demo_world
      = (w', inr ExitCode.SUCCESS) ∧
    ExitCode.value ExitCode.SUCCESS = 0 ∧
    db w' = db demo_world ∧ durable w' = durable demo_world ∧
    stdout w' = stdout demo_world ∧
    stderr w' =
      stderr demo_world ++
        [Text ("No task with ID " +:+ pretty 7 +:+ " found" +:+ nl)].
Proof.
  apply (main_delete_missing_id_succeeds (Delete.mk 7) demo_world).
  - unfold int64. simpl. lia.
  - reflexivity.
Defined.

(** ** [Complete.run] and [Delete.run]: more of their behaviour *)

Lemma Complete_run_found_eq self w c p :
  task (db w) !! Complete.id self = Some c →
  Priority.from_value (c_priority c) = inr p →
  Complete.run self w =
    (mkWorld
       (db_update_status Status.COMPLETED (clock w) (Complete.id self) (db w))
       (db_update_status Status.COMPLETED (clock w) (Complete.id self) (db w))
       (clock w)
       (stdout w ++
          [JsonDumps
             (Task.as_dict
                (Task.mk (Complete.id self) (c_title c) p Status.COMPLETED
                         (c_created_at c) (clock w)))])
       (stderr w ++
          [Text ("Completed task with ID " +:+ pretty (Complete.id self)
                   +:+ nl +:+ nl)])
       ((executed w ++
           [UPDATE_status Status.COMPLETED (clock w) (Complete.id self)]) ++
          [SELECT_by_id (Some (Complete.id self))]),
     inr ()).
Proof.
  intros Hsome Hp. destruct w as [d dd k so se ex]. simpl in Hsome.
  assert (Hlk : task (db_update_status Status.COMPLETED k (Complete.id self) d)
                  !! Complete.id self =
                Some (mkCells (c_title c) (c_priority c)
                        (Status.value Status.COMPLETED) (c_created_at c) k)).
  { unfold db_update_status. cbn [task]. rewrite lookup_alter.
    case_decide; [| done]. by rewrite Hsome. }
  unfold Complete.run, mbind, M_bind, datetime_now, execute.
  cbn [run_stmt clock log_stmt db set_db commit durable stdout stderr
       executed].
  unfold db_select_by_id. rewrite Hlk.
  unfold fetchone, lift. cbn [fetched head].
  unfold Task.from_data_star, Task.from_data, row_of.
  cbn [r_id r_title r_priority r_status r_created_at r_updated_at
       c_title c_priority c_status c_created_at c_updated_at].
  by rewrite Hp.
Qed.

(** X14.  [Complete.run] on an id that matches a row (whose priority is in
    0..2, whatever its status) returns and touches that row alone: its
    status becomes COMPLETED and its [updated_at] the current time, its
    title, priority and [created_at] stay, every other row and the row
    count stay, the update is committed, and the task printed is the row
    after the update. *)
Theorem Complete_run_updates_one_row self w c :
  task (db w) !! Complete.id self = Some c →
  check_0_2 (c_priority c) = true →
  ∃ w' t,
    Complete.run self w = (w', inr ()) ∧
    task (db w') !! Complete.id self =
      Some (mkCells (c_title c) (c_priority c) (Status.value Status.COMPLETED)
                    (c_created_at c) (clock w)) ∧
    (∀ id, id ≠ Complete.id self → task (db w') !! id = task (db w) !! id) ∧
    size (task (db w')) = size (task (db w)) ∧
    durable w' = db w' ∧
    stdout w' = stdout w ++ [JsonDumps (Task.as_dict t)] ∧
    task (db w') !! Complete.id self = Some
      (mkCells (Task.title t) (Priority.value (Task.priority t))
               (Status.value (Task.status t)) (Task.created_at t)
               (Task.updated_at t)).
Proof.
  intros Hsome Hp. destruct (Priority_from_value_in_range _ Hp) as [p Hp'].
  eexists _, _. split; [by apply (Complete_run_found_eq self w c p) |].
  cbn [db durable stdout].
  assert (Hlk : task (db_update_status Status.COMPLETED (clock w)
                        (Complete.id self) (db w))
                  !! Complete.id self =
                Some (mkCells (c_title c) (c_priority c)
                        (Status.value Status.COMPLETED) (c_created_at c)
                        (clock w))).
  { unfold db_update_status. cbn [task]. rewrite lookup_alter.
    case_decide; [| done]. by rewrite Hsome. }
  split; [exact Hlk |]. split; [| split; [| split; [done | split; [done |]]]].
  - intros id Hid. unfold db_update_status. cbn [task].
    rewrite lookup_alter. by case_decide.
  - unfold db_update_status. cbn [task].
    rewrite <- !size_dom. f_equal. apply dom_alter_L.
  - rewrite Hlk. cbn. by rewrite (Priority_from_value_inr _ _ Hp').
Qed.

Lemma Complete_run_updates_one_row_witness :
  ∃ w' t,
    Complete.run (Complete.mk 2) demo_world = (w', inr ()) ∧
    task (db w') !! 2 = Some (mkCells "call bank" 2 2 20 100) ∧
    (∀ id, id ≠ 2 → task (db w') !! id = task demo_db !! id) ∧
    size (task (db w')) = size (task demo_db) ∧
    durable w' = db w' ∧
    stdout w' = [JsonDumps (Task.as_dict t)] ∧
    task (db w') !! 2 = Some
      (mkCells (Task.title t) (Priority.value (Task.priority t))
               (Status.value (Task.status t)) (Task.created_at t)
               (Task.updated_at t)).
Proof.
  apply (Complete_run_updates_one_row (Complete.mk 2) demo_world
           (mkCells "call bank" 2 0 20 20)); reflexivity.
Defined.

(** X15.  A second [delete] of the same id finds nothing: after a
    [Delete.run] that removed the row, the same request writes the
    not-found message to stderr and leaves the table as the first run left
    it. *)
Theorem Delete_run_twice self w c :
  task (db w) !! Delete.id self = Some c →
  row_valid (row_of (Delete.id self) c) →
  ∃ w1 w2,
    Delete.run self w = (w1, inr ()) ∧
    Delete.run self w1 = (w2, inr ()) ∧
    task (db w1) = delete (Delete.id self) (task (db w)) ∧
    db w2 = db w1 ∧ durable w2 = db w1 ∧
    stdout w2 = stdout w1 ∧
    stderr w2 =
      stderr w1 ++
        [Text ("No task with ID " +:+ pretty (Delete.id self)
                 +:+ " found" +:+ nl)].
Proof.
  intros Hsome Hvalid.
  destruct (Delete_run_found self w c Hsome Hvalid) as (t & _ & Hrun1).
  eexists _, _. split; [exact Hrun1 |]. split.
  - apply Delete_run_not_found. cbn. apply lookup_delete_eq.
  - by cbn.
Qed.

Lemma Delete_run_twice_witness :
  ∃ w1 w2,
    Delete.run (Delete.mk 2) demo_world = (w1, inr ()) ∧
    Delete.run (Delete.mk 2) w1 = (w2, inr ()) ∧
    task (db w1) = delete 2 (task demo_db) ∧
    db w2 = db w1 ∧ durable w2 = db w1 ∧
    stdout w2 = stdout w1 ∧
    stderr w2 =
      stderr w1 ++
        [Text ("No task with ID " +:+ pretty 2 +:+ " found" +:+ nl)].
Proof.
  apply (Delete_run_twice (Delete.mk 2) demo_world
           (mkCells "call bank" 2 0 20 20)).
  - reflexivity.
  - split; reflexivity.
Defined.

Lemma from_data_star_invalid r :
  ¬ row_valid r →
  ∃ v cls, Task.from_data_star (Some r) = inl (ValueError v cls).
Proof.
  intros Hn. destruct r as [i ti p s c u]. unfold row_valid in Hn.
  simpl in *. unfold Task.from_data.
  destruct (check_0_2 p) eqn:Hp.
  - destruct (Priority_from_value_in_range p Hp) as [p' ->].
    destruct (check_0_2 s) eqn:Hs; [by destruct Hn |].
    rewrite Status_from_value_out_of_range; [by eexists _, _ |].
    unfold check_0_2 in Hs. apply andb_false_iff in Hs.
    rewrite !Z.leb_gt in Hs. lia.
  - rewrite Priority_from_value_out_of_range; [by eexists _, _ |].
    unfold check_0_2 in Hp. apply andb_false_iff in Hp.
    rewrite !Z.leb_gt in Hp. lia.
Qed.

(** X16.  [Delete.run] never removes a row it cannot print: when the row of
    the id has a priority or a status outside 0..2, building the task
    raises [ValueError] before the DELETE is executed, and the table, what
    is committed and both streams are left as they were. *)
Theorem Delete_run_keeps_unprintable_row self w c :
  task (db w) !! Delete.id self = Some c →
  ¬ row_valid (row_of (Delete.id self) c) →
  ∃ v cls,
    Delete.run self w =
      (mkWorld (db w) (durable w) (clock w) (stdout w) (stderr w)
               (executed w ++ [SELECT_star_by_id (Delete.id self)]),
       inl (ValueError v cls)).
Proof.
  intros Hsome Hinv.
  destruct (from_data_star_invalid _ Hinv) as (v & cls & He).
  exists v, cls. destruct w as [d dd k so se ex]. simpl in Hsome.
  unfold Delete.run, mbind, M_bind, execute.
  cbn [run_stmt clock log_stmt db]. unfold db_select_by_id. rewrite Hsome.
  cbn [fetchone fetched head set_db]. unfold lift. by rewrite He.
Qed.

Lemma Delete_run_keeps_unprintable_row_witness :
  ∃ v cls,
    Delete.run (Delete.mk 1)
      (mkWorld (mkDatabase {[ 1 := mkCells "x" 7 0 10 10 ]} 1)
               (mkDatabase {[ 1 := mkCells "x" 7 0 10 10 ]} 1) 50 [] [] []) =
      (mkWorld (mkDatabase {[ 1 := mkCells "x" 7 0 10 10 ]} 1)
               (mkDatabase {[ 1 := mkCells "x" 7 0 10 10 ]} 1) 50 [] []
               [SELECT_star_by_id 1],
       inl (ValueError v cls)).
Proof.
  apply (Delete_run_keeps_unprintable_row (Delete.mk 1)
           (mkWorld (mkDatabase {[ 1 := mkCells "x" 7 0 10 10 ]} 1)
                    (mkDatabase {[ 1 := mkCells "x" 7 0 10 10 ]} 1) 50 [] [] [])
           (mkCells "x" 7 0 10 10)).
  - reflexivity.
  - intros [H _]. discriminate H.
Defined.

(** ** [Complete.run], then [List.run] *)

(** X17.  A completed task leaves the default listing: after
    [Complete.run] on an id of a valid table, [List.run] without [--all]
    prints the rows that were stored before, less the COMPLETED ones and
    less the row of that id. *)
Theorem Complete_then_list_hides_task id self w c :
  db_valid (db w) →
  task (db w) !! id = Some c →
  List.show_all self = false →
  ∃ w1 w2 tasks,
    Complete.run (Complete.mk id) w = (w1, inr ()) ∧
    List.run self w1 = (w2, inr (List.flip_reverse self)) ∧
    stdout w2 = stdout w1 ++ [list_output (List.as_json self) tasks] ∧
    ∀ r, r ∈ task_row <$> tasks ↔
         r ∈ all_rows (db w) ∧
         r_status r ≠ Status.value Status.COMPLETED ∧
         r_id r ≠ id.
Proof.
  intros Hd Hsome Hall.
  destruct (Hd _ _ Hsome) as [Hp _]. cbn in Hp.
  destruct (Priority_from_value_in_range _ Hp) as [p Hp'].
  pose proof (Complete_run_found_eq (Complete.mk id) w c p Hsome Hp') as Hrun1.
  cbn [Complete.id] in Hrun1.
  set (w1 := mkWorld _ _ _ _ _ _) in Hrun1.
  assert (Hd1 : db_valid (db w1)) by by apply db_update_status_valid.
  destruct (List_run_valid self w1 Hd1) as (tasks & Hrows & Hrun2).
  eexists w1, _, tasks. split; [exact Hrun1 |]. split; [exact Hrun2 |].
  split; [done |]. intros r.
  rewrite Hrows, db_select_list_perm, Hall. cbn [negb].
  rewrite list_elem_of_filter, !elem_of_all_rows. unfold where_ok.
  cbn [db w1 db_update_status task]. split.
  - intros [Hok (k & c' & Hlk & ->)]. specialize (Hok eq_refl).
    rewrite lookup_alter in Hlk. case_decide as Hk.
    + subst k. rewrite Hsome in Hlk. injection Hlk as <-. by destruct Hok.
    + split; [by exists k, c' |]. split; [done | cbn; congruence].
  - intros [(k & c' & Hlk & ->) [Hst Hid]]. split; [done |].
    exists k, c'. split; [| done]. rewrite lookup_alter.
    case_decide as Hk; [| done]. cbn in Hid. congruence.
Qed.

Lemma Complete_then_list_hides_task_witness :
  ∃ w1 w2 tasks,
    Complete.run (Complete.mk 2) demo_world = (w1, inr ()) ∧
    List.run (List.mk PRIORITY false true false) w1
      = (w2, inr (List.mk PRIORITY true true false)) ∧
    stdout w2 = stdout w1 ++ [list_output true tasks] ∧
    ∀ r, r ∈ task_row <$> tasks ↔
         r ∈ all_rows demo_db ∧
         r_status r ≠ Status.value Status.COMPLETED ∧
         r_id r ≠ 2.
Proof.
  apply (Complete_then_list_hides_task 2 (List.mk PRIORITY false true false)
           demo_world (mkCells "call bank" 2 0 20 20)).
  - apply map_Forall_to_list. vm_compute. repeat constructor.
  - reflexivity.
  - reflexivity.
Defined.

(** ** [List.run] on a row it cannot build a task from *)

Lemma from_data_star_Some_error r e :
  Task.from_data_star (Some r) = inl e → ∃ v cls, e = ValueError v cls.
Proof.
  destruct r as [i ti p s c u]. unfold Task.from_data_star, Task.from_data.
  cbn [r_id r_title r_priority r_status r_created_at r_updated_at].
  unfold Priority.from_value, Status.from_value.
  repeat match goal with
    | |- context [?a =? ?b] => destruct (a =? b)
    end; intros [= <-]; by eexists _, _.
Qed.

Lemma tasks_of_rows_invalid rows r :
  r ∈ rows → ¬ row_valid r →
  ∃ v cls, tasks_of_rows rows = inl (ValueError v cls).
Proof.
  intros Hin Hinv. induction rows as [|x rows IH]; [by apply elem_of_nil in Hin |].
  rewrite tasks_of_rows_cons.
  destruct (Task.from_data_star (Some x)) as [e | t] eqn:Hx.
  - destruct (from_data_star_Some_error _ _ Hx) as (v & cls & ->).
    by exists v, cls.
  - apply elem_of_cons in Hin as [-> | Hin].
    + destruct (from_data_star_invalid _ Hinv) as (v & cls & He). congruence.
    + destruct (IH Hin) as (v & cls & ->). by exists v, cls.
Qed.

(** X18.  One stored row with a priority or a status outside 0..2 that the
    query selects makes [List.run] raise [ValueError] after the query:
    nothing is printed, not even the rows that are fine. *)
Theorem List_run_unprintable_row self w r :
  r ∈ all_rows (db w) →
  where_ok (negb (List.show_all self)) r →
  ¬ row_valid r →
  ∃ v cls w',
    List.run self w = (w', inl (ValueError v cls)) ∧
    stdout w' = stdout w ∧ stderr w' = stderr w ∧ db w' = db w.
Proof.
  intros Hin Hok Hinv.
  set (self' := List.flip_reverse self).
  destruct (tasks_of_rows_invalid
              (db_select_list (negb (List.show_all self')) (List.sort_by self')
                              (List.desc self') (db w)) r) as (v & cls & He).
  { rewrite db_select_list_perm. apply list_elem_of_filter.
    unfold self'. by rewrite flip_reverse_show_all. }
  { done. }
  exists v, cls. eexists. split.
  - unfold List.run, mbind, M_bind at 1. rewrite List_fetch_tasks_eq.
    cbv zeta. fold self'. rewrite He. reflexivity.
  - done.
Qed.

Lemma List_run_unprintable_row_witness :
  ∃ v cls w',
    List.run (List.mk PRIORITY false false false)
      (mkWorld (mkDatabase {[ 1 := mkCells "x" 7 0 10 10 ]} 1)
               (mkDatabase {[ 1 := mkCells "x" 7 0 10 10 ]} 1) 50 [] [] [])
      = (w', inl (ValueError v cls)) ∧
    stdout w' = [] ∧ stderr w' = [] ∧
    db w' = mkDatabase {[ 1 := mkCells "x" 7 0 10 10 ]} 1.
Proof.
  apply (List_run_unprintable_row (List.mk PRIORITY false false false)
           (mkWorld (mkDatabase {[ 1 := mkCells "x" 7 0 10 10 ]} 1)
                    (mkDatabase {[ 1 := mkCells "x" 7 0 10 10 ]} 1) 50 [] [] [])
           (mkRow 1 "x" 7 0 10 10)).
  - vm_compute. apply list_elem_of_here.
  - intros _. discriminate.
  - intros [H _]. discriminate H.
Defined.

(** ** The decimal digits of [str] *)

Lemma pretty_N_go_length_mono (y : N) :
  ∀ (x : N) s s',
    (x ≤ y)%N → (String.length s ≤ String.length s')%nat →
    (String.length (pretty_N_go x s) ≤ String.length (pretty_N_go y s'))%nat.
Proof.
  induction (N.lt_wf_0 y) as [y _ IH]. intros x s s' Hxy Hs.
  destruct (decide (y = 0)%N) as [-> | Hy].
  - assert (x = 0)%N as -> by lia. by rewrite !pretty_N_go_0.
  - rewrite (pretty_N_go_step y) by lia.
    assert (Hlt : (y `div` 10 < y)%N) by (apply N.div_lt; lia).
    destruct (decide (x = 0)%N) as [-> | Hx].
    + apply (IH _ Hlt); [apply N.le_0_l | simpl; lia].
    + rewrite (pretty_N_go_step x) by lia.
      apply (IH _ Hlt); [by apply N.Div0.div_le_mono | simpl; lia].
Qed.

Lemma pretty_N_length_mono (x y : N) :
  (x ≤ y)%N →
  (String.length (pretty x) ≤ String.length (pretty y))%nat.
Proof.
  intros Hxy. unfold pretty, pretty_N.
  destruct (decide (x = 0)%N) as [-> | Hx], (decide (y = 0)%N) as [-> | Hy];
    try done; try lia.
  - rewrite (pretty_N_go_step y) by lia.
    rewrite <- (pretty_N_go_0 "0") at 1.
    apply pretty_N_go_length_mono; [apply N.le_0_l | simpl; lia].
  - by apply pretty_N_go_length_mono.
Qed.

Lemma pretty_Z_nonneg (z : Z) : 0 ≤ z → pretty z = pretty (Z.to_N z).
Proof. by destruct z as [|p|p]; [| | lia]. Qed.

(** [len(str(a)) <= len(str(n))] for an integer [a] from 0 to the length
    [n] of a list. *)
Lemma str_length_mono (a : Z) (n : nat) :
  0 ≤ a ≤ Z.of_nat n →
  (String.length (pretty a) ≤ String.length (pretty n))%nat.
Proof.
  intros Ha. rewrite pretty_Z_nonneg by lia.
  change (pretty n) with (pretty (N.of_nat n)).
  apply pretty_N_length_mono. lia.
Qed.

(** ** [render_table]: when the table lines up *)

(** X19.  The ID column is wide enough whenever no listed id is negative
    or exceeds the number of listed rows, as when the tasks 1 to n are
    all listed: then every ID cell fits in [width_id]. *)
Theorem table_widths_id_fits tasks :
  (∀ t, t ∈ tasks → 0 ≤ Task.id t ≤ Z.of_nat (length tasks)) →
  ∀ t, t ∈ tasks →
    (String.length (pretty (Task.id t)) ≤ width_id (table_widths tasks))%nat.
Proof.
  intros Hids t Ht. cbn [table_widths width_id].
  pose proof (str_length_mono _ _ (Hids t Ht)). lia.
Qed.

Lemma table_widths_id_fits_witness :
  (String.length (pretty 1%Z) ≤
     width_id (table_widths
        [Task.mk 1%Z "call bank" Priority.HIGH Status.PENDING 20%Z 20%Z]))%nat.
Proof.
  apply (table_widths_id_fits
           [Task.mk 1 "call bank" Priority.HIGH Status.PENDING 20 20]
           ltac:(intros t ->%list_elem_of_singleton; simpl; lia)
           (Task.mk 1 "call bank" Priority.HIGH Status.PENDING 20 20)).
  apply list_elem_of_here.
Defined.

Lemma line_len_fields tlen w b c0 c1 c2 c3 c4 c5 :
  line_len tlen (Fields w [c0; c1; c2; c3; c4; c5]) =
  (line_len tlen (Rule b w)
   + (padded_len (text_len tlen c0) (width_id w) - width_id w)
   + (padded_len (text_len tlen c1) (width_title w) - width_title w)
   + (padded_len (text_len tlen c2) (width_priority w) - width_priority w)
   + (padded_len (text_len tlen c3) (width_status w) - width_status w)
   + (padded_len (text_len tlen c4) (width_created_at w) - width_created_at w)
   + (padded_len (text_len tlen c5) (width_updated_at w) - width_updated_at w)
  )%nat.
Proof. unfold line_len, widths_list, padded_len. simpl. lia. Qed.

Lemma table_widths_header tasks :
  let w := table_widths tasks in
  (2 ≤ width_id w ∧ 5 ≤ width_title w ∧ 8 ≤ width_priority w ∧
   6 ≤ width_status w ∧ 10 ≤ width_created_at w ∧
   10 ≤ width_updated_at w)%nat.
Proof.
  cbn [table_widths width_id width_title width_priority width_status
       width_created_at width_updated_at].
  pose proof (max_of_ge 5 ((λ t, String.length (Task.title t)) <$> tasks)).
  pose proof (max_of_ge 8
    ((λ t, String.length (Priority.name (Task.priority t))) <$> tasks)).
  pose proof (max_of_ge 6
    ((λ t, String.length (Status.name (Task.status t))) <$> tasks)).
  destruct (0 <? length tasks)%nat; lia.
Qed.

Lemma table_widths_row tasks t :
  t ∈ tasks →
  let w := table_widths tasks in
  (String.length (Task.title t) ≤ width_title w ∧
   String.length (Priority.name (Task.priority t)) ≤ width_priority w ∧
   String.length (Status.name (Task.status t)) ≤ width_status w ∧
   width_created_at w = 24 ∧ width_updated_at w = 24)%nat.
Proof.
  intros Ht.
  cbn [table_widths width_title width_priority width_status
       width_created_at width_updated_at].
  repeat split.
  - apply max_of_elem_le, list_elem_of_fmap. by exists t.
  - apply max_of_elem_le, list_elem_of_fmap. by exists t.
  - apply max_of_elem_le, list_elem_of_fmap. by exists t.
  - by destruct tasks; [apply elem_of_nil in Ht |].
  - by destruct tasks; [apply elem_of_nil in Ht |].
Qed.

(** X20.  The table has four lines more than there are tasks, and all its
    lines have the same number of characters when every ID cell fits in
    [width_id] and every timestamp renders to at most 24 characters: the
    three other columns always fit. *)
Theorem render_table_lines_up tlen tasks :
  (∀ t, t ∈ tasks →
     (String.length (pretty (Task.id t)) ≤ width_id (table_widths tasks))%nat) →
  (∀ t, t ∈ tasks →
     (tlen (Task.created_at t) ≤ 24 ∧ tlen (Task.updated_at t) ≤ 24)%nat) →
  length (render_table tasks) = (length tasks + 4)%nat ∧
  ∀ l, l ∈ render_table tasks →
       line_len tlen l = line_len tlen (Rule Top (table_widths tasks)).
Proof.
  intros Hid Hts. split.
  { unfold render_table. cbv zeta.
    rewrite !length_app, length_fmap. simpl. lia. }
  intros l. unfold render_table. cbv zeta.
  rewrite !elem_of_app, !elem_of_cons, !elem_of_nil, list_elem_of_fmap.
  pose proof (table_widths_header tasks) as Hh. cbv zeta in Hh.
  intros [[-> | [-> | [-> | []]]] | [(t & -> & Ht) | [-> | []]]]; try done.
  - unfold header_cells. rewrite (line_len_fields _ _ Top).
    unfold padded_len, text_len. simpl String.length. lia.
  - pose proof (table_widths_row tasks t Ht) as Hr. cbv zeta in Hr.
    specialize (Hid t Ht). specialize (Hts t Ht).
    unfold task_cells. rewrite (line_len_fields _ _ Top).
    unfold padded_len, text_len. lia.
Qed.

Lemma render_table_lines_up_witness :
  length (render_table
            [Task.mk 1 "call bank" Priority.HIGH Status.PENDING 20 20])
    = (1 + 4)%nat ∧
  ∀ l, l ∈ render_table
             [Task.mk 1 "call bank" Priority.HIGH Status.PENDING 20 20] →
       line_len (λ _, 24%nat) l =
       line_len (λ _, 24%nat)
         (Rule Top (table_widths
            [Task.mk 1 "call bank" Priority.HIGH Status.PENDING 20 20])).
Proof.
  apply (render_table_lines_up (λ _, 24%nat)
           [Task.mk 1 "call bank" Priority.HIGH Status.PENDING 20 20]).
  - intros t ->%list_elem_of_singleton. vm_compute. lia.
  - intros t _. lia.
Defined.

(** X21.  A task whose ID cell is longer than [width_id] gets a line that
    is longer than the rules of the table, however its other cells are. *)
Theorem render_table_long_id_sticks_out tlen tasks t :
  t ∈ tasks →
  (width_id (table_widths tasks) < String.length (pretty (Task.id t)))%nat →
  Fields (table_widths tasks) (task_cells t) ∈ render_table tasks ∧
  (line_len tlen (Rule Top (table_widths tasks)) <
   line_len tlen (Fields (table_widths tasks) (task_cells t)))%nat.
Proof.
  intros Ht Hlong. split.
  - unfold render_table. cbv zeta.
    rewrite !elem_of_app, list_elem_of_fmap. right. left. by exists t.
  - unfold task_cells. rewrite (line_len_fields _ _ Top).
    unfold padded_len, text_len. lia.
Qed.

Lemma render_table_long_id_sticks_out_witness :
  Fields (table_widths
            [Task.mk 100 "call bank" Priority.HIGH Status.PENDING 20 20])
         (task_cells
            (Task.mk 100 "call bank" Priority.HIGH Status.PENDING 20 20))
    ∈ render_table
        [Task.mk 100 "call bank" Priority.HIGH Status.PENDING 20 20] ∧
  (line_len (λ _, 24%nat)
     (Rule Top (table_widths
        [Task.mk 100%Z "call bank" Priority.HIGH Status.PENDING 20%Z 20%Z])) <
   line_len (λ _, 24%nat)
     (Fields (table_widths
        [Task.mk 100%Z "call bank" Priority.HIGH Status.PENDING 20%Z 20%Z])
        (task_cells
           (Task.mk 100%Z "call bank" Priority.HIGH Status.PENDING 20%Z 20%Z))))%nat.
Proof.
  apply (render_table_long_id_sticks_out (λ _, 24%nat)
           [Task.mk 100 "call bank" Priority.HIGH Status.PENDING 20 20]
           (Task.mk 100 "call bank" Priority.HIGH Status.PENDING 20 20)).
  - apply list_elem_of_here.
  - vm_compute. lia.
Defined.

(** ** pyproject.py *)

(** X22.  When the decoded file has a [project] table with a [name] and a
    [version], [pyproject_update_env] does not raise, and the environment
    then holds the two values under PYPROJECT_NAME and PYPROJECT_VERSION
    and what it held before under every other key. *)
Theorem pyproject_update_env_sets_both data env project name version :
  data !! "project" = Some (Table project) →
  project !! "name" = Some name →
  project !! "version" = Some version →
  ∃ env',
    pyproject_update_env data env = (env', inr ()) ∧
    env' !! "PYPROJECT_NAME" = Some name ∧
    env' !! "PYPROJECT_VERSION" = Some version ∧
    ∀ key, key ≠ "PYPROJECT_NAME" → key ≠ "PYPROJECT_VERSION" →
           env' !! key = env !! key.
Proof.
  intros Hp Hn Hv. unfold pyproject_update_env. rewrite Hp, Hn, Hv.
  eexists. split; [reflexivity |]. split; [| split].
  - rewrite lookup_insert_ne by done. apply lookup_insert_eq.
  - apply lookup_insert_eq.
  - intros key H1 H2. by rewrite !lookup_insert_ne.
Qed.

Lemma pyproject_update_env_sets_both_witness :
  ∃ env',
    pyproject_update_env
      {[ "project" := Table {[ "name" := LStr "foo";
                               "version" := LStr "0.1.0";
                               "requires-python" := LStr ">= 3.13" ]} ]}
      ∅ = (env', inr ()) ∧
    env' !! "PYPROJECT_NAME" = Some (LStr "foo") ∧
    env' !! "PYPROJECT_VERSION" = Some (LStr "0.1.0") ∧
    ∀ key, key ≠ "PYPROJECT_NAME" → key ≠ "PYPROJECT_VERSION" →
           env' !! key = (∅ : gmap string leaf) !! key.
Proof.
  apply (pyproject_update_env_sets_both _ ∅
           {[ "name" := LStr "foo"; "version" := LStr "0.1.0";
              "requires-python" := LStr ">= 3.13" ]}); reflexivity.
Defined.

(** X23.  When [pyproject_update_env] raises, the environment is as it was,
    except in one case: if only [version] is missing from the [project]
    table, the [KeyError] for it comes after PYPROJECT_NAME has been
    assigned, and the environment keeps that assignment. *)
Theorem pyproject_update_env_failure data env env1 e :
  pyproject_update_env data env = (env1, inl e) →
  (e = KeyError "version" ∧
   ∃ project name,
     data !! "project" = Some (Table project) ∧
     project !! "name" = Some name ∧
     project !! "version" = None ∧
     env1 = <["PYPROJECT_NAME" := name]> env) ∨
  (e ≠ KeyError "version" ∧ env1 = env).
Proof.
  unfold pyproject_update_env.
  destruct (data !! "project") as [[v | project] |] eqn:Hp.
  - intros [= <- <-]. by right.
  - destruct (project !! "name") as [name |] eqn:Hn.
    + destruct (project !! "version") as [version |] eqn:Hv; [done |].
      intros [= <- <-]. left. split; [done |]. by exists project, name.
    + intros [= <- <-]. by right.
  - intros [= <- <-]. by right.
Qed.

Lemma pyproject_update_env_failure_witness :
  (KeyError "version" = KeyError "version" ∧
   ∃ project name,
     ({[ "project" := Table {[ "name" := LStr "foo" ]} ]} : gmap string toml)
       !! "project" = Some (Table project) ∧
     project !! "name" = Some name ∧
     project !! "version" = None ∧
     (<["PYPROJECT_NAME" := LStr "foo"]> ∅ : gmap string leaf)
       = <["PYPROJECT_NAME" := name]> ∅) ∨
  (KeyError "version" ≠ KeyError "version" ∧
   (<["PYPROJECT_NAME" := LStr "foo"]> ∅ : gmap string leaf) = ∅).
Proof.
  apply (pyproject_update_env_failure
           {[ "project" := Table {[ "name" := LStr "foo" ]} ]} ∅).
  reflexivity.
Defined.

Lemma suffix_cons_cases {A} (d : list A) x parent :
  d `suffix_of` x :: parent → d = x :: parent ∨ d `suffix_of` parent.
Proof.
  intros [[|y k] Hk]; simpl in Hk; [by left |].
  right. injection Hk as _ ->. by exists k.
Qed.

Lemma find_pyproject_inr files start c :
  find_pyproject files start = inr c →
  ∃ dir,
    dir `suffix_of` start ∧ c = joinpath dir "pyproject.toml" ∧
    files c = true ∧
    ∀ d, d `suffix_of` start → (length dir < length d)%nat →
         files (joinpath d "pyproject.toml") = false.
Proof.
  induction start as [|x parent IH]; simpl.
  - destruct (files (joinpath [] "pyproject.toml")) eqn:Hf; [| done].
    intros [= <-]. exists []. split; [done |]. split; [done |].
    split; [done |]. intros d Hd%suffix_nil_inv. subst d. simpl. lia.
  - destruct (files (joinpath (x :: parent) "pyproject.toml")) eqn:Hf.
    + intros [= <-]. exists (x :: parent). split; [done |]. split; [done |].
      split; [done |]. intros d Hd%suffix_length. simpl in *. lia.
    + intros (dir & Hdir & -> & Hex & Hnear)%IH. exists dir.
      split; [by apply suffix_cons_r |]. split; [done |]. split; [done |].
      intros d Hd Hlen. apply suffix_cons_cases in Hd as [-> | Hd]; [done |].
      by apply Hnear.
Qed.

Lemma find_pyproject_inl files start e :
  find_pyproject files start = inl e →
  e = FileNotFoundError "expected pyproject.toml to exist at root" ∧
  ∀ d, d `suffix_of` start → files (joinpath d "pyproject.toml") = false.
Proof.
  induction start as [|x parent IH]; simpl.
  - destruct (files (joinpath [] "pyproject.toml")) eqn:Hf; [done |].
    intros [= <-]. split; [done |]. by intros d ->%suffix_nil_inv.
  - destruct (files (joinpath (x :: parent) "pyproject.toml")) eqn:Hf; [done |].
    intros [-> Hall]%IH. split; [done |].
    intros d [-> | Hd]%suffix_cons_cases; [done | by apply Hall].
Qed.

(** X24.  [find_pyproject] returns the [pyproject.toml] of the nearest
    directory that has one, among [start] and its parents up to the root:
    the file it returns exists and no directory nearer to [start] has one.
    It raises [FileNotFoundError] exactly when none of them has one. *)
Theorem find_pyproject_nearest files start :
  match find_pyproject files start with
  | inr c =>
      ∃ dir,
        dir `suffix_of` start ∧ c = joinpath dir "pyproject.toml" ∧
        files c = true ∧
        ∀ d, d `suffix_of` start → (length dir < length d)%nat →
             files (joinpath d "pyproject.toml") = false
  | inl e =>
      e = FileNotFoundError "expected pyproject.toml to exist at root" ∧
      ∀ d, d `suffix_of` start →
           files (joinpath d "pyproject.toml") = false
  end.
Proof.
  destruct (find_pyproject files start) as [e | c] eqn:H.
  - by apply find_pyproject_inl.
  - by apply find_pyproject_inr.
Qed.

(** ** task.py: [Task.from_data], read backwards *)

(** X25.  Whenever [Task.from_data] returns a task, the task has the id
    and the title it was given, and its priority and status members have
    the integer values it was given; so two calls that return the same
    task were given the same id, title, priority and status. *)
Theorem from_data_keeps_fields id title p s c u t :
  Task.from_data id title p s c u = inr t →
  (Task.id t = id ∧ Task.title t = title ∧
   Priority.value (Task.priority t) = p ∧
   Status.value (Task.status t) = s) ∧
  (∀ id' title' p' s' c' u',
     Task.from_data id' title' p' s' c' u' = inr t →
     id' = id ∧ title' = title ∧ p' = p ∧ s' = s).
Proof.
  assert (Hfields : ∀ i ti p0 s0 c0 u0,
            Task.from_data i ti p0 s0 c0 u0 = inr t →
            Task.id t = i ∧ Task.title t = ti ∧
            Priority.value (Task.priority t) = p0 ∧
            Status.value (Task.status t) = s0).
  { intros i ti p0 s0 c0 u0 H. unfold Task.from_data in H.
    destruct (Priority.from_value p0) as [|p1] eqn:Hp; [done |].
    destruct (Status.from_value s0) as [|s1] eqn:Hs; [done |].
    injection H as <-. cbn.
    by rewrite (Priority_from_value_inr _ _ Hp), (Status_from_value_inr _ _ Hs). }
  intros H. destruct (Hfields _ _ _ _ _ _ H) as (Hi & Hti & Hp & Hs).
  split; [done |].
  intros id' title' p' s' c' u' H'.
  destruct (Hfields _ _ _ _ _ _ H') as (Hi' & Hti' & Hp' & Hs').
  repeat split; congruence.
Qed.

Lemma from_data_keeps_fields_witness :
  (Task.id (Task.mk 2 "call bank" Priority.HIGH Status.PENDING 20 20) = 2 ∧
   Task.title (Task.mk 2 "call bank" Priority.HIGH Status.PENDING 20 20)
     = "call bank" ∧
   Priority.value
     (Task.priority (Task.mk 2 "call bank" Priority.HIGH Status.PENDING 20 20))
     = 2 ∧
   Status.value
     (Task.status (Task.mk 2 "call bank" Priority.HIGH Status.PENDING 20 20))
     = 0) ∧
  (∀ id' title' p' s' c' u',
     Task.from_data id' title' p' s' c' u'
       = inr (Task.mk 2 "call bank" Priority.HIGH Status.PENDING 20 20) →
     id' = 2 ∧ title' = "call bank" ∧ p' = 2 ∧ s' = 0).
Proof.
  apply (from_data_keeps_fields 2 "call bank" 2 0 20 20). reflexivity.
Defined.

(** ** [List.run]: the order of the listing *)

Lemma list_order_primary sort_by desc a b :
  order_le (list_order sort_by desc) a b →
  match desc with
  | ASC => sort_column sort_by a ≤ sort_column sort_by b
  | DESC => sort_column sort_by b ≤ sort_column sort_by a
  end.
Proof.
  unfold list_order. rewrite order_le_cons. unfold term_key. simpl.
  intros H. destruct desc; lia.
Qed.

(** X26.  On a database that satisfies its CHECK constraints, [List.run]
    prints the tasks sorted by the chosen key in the direction of its
    query; with the default key and without [--reverse] the direction is
    DESC, so that no task is listed after one of lower priority. *)
Theorem List_run_sorted_by_key self w :
  db_valid (db w) →
  ∃ tasks w',
    List.run self w = (w', inr (List.flip_reverse self)) ∧
    stdout w' = stdout w ++ [list_output (List.as_json self) tasks] ∧
    sorted_by_key (List.desc (List.flip_reverse self)) (List.sort_by self)
                  tasks ∧
    (List.sort_by self = PRIORITY → List.reverse self = false →
     ∀ i j a b, (i < j)%nat → tasks !! i = Some a → tasks !! j = Some b →
       Priority.value (Task.priority b) ≤ Priority.value (Task.priority a)).
Proof.
  intros Hd. destruct (List_run_valid self w Hd) as (tasks & Hrows & Hrun).
  eexists tasks, _. split; [exact Hrun |]. split; [done |].
  assert (Hsorted : sorted_by_key (List.desc (List.flip_reverse self))
                      (List.sort_by self) tasks).
  { intros i j a b Hij Ha Hb. unfold sort_key.
    apply list_order_primary.
    eapply (StronglySorted_lookup _ _ i j);
      [apply db_select_list_sorted | done | |];
      rewrite <- Hrows, list_lookup_fmap; [by rewrite Ha | by rewrite Hb]. }
  split; [exact Hsorted |].
  intros Hk Hr i j a b Hij Ha Hb.
  specialize (Hsorted i j a b Hij Ha Hb).
  unfold List.desc in Hsorted.
  rewrite (flip_reverse_priority self Hk), Hr, Hk in Hsorted. exact Hsorted.
Qed.

Lemma List_run_sorted_by_key_witness :
  ∃ tasks w',
    List.run (List.mk PRIORITY false false true) demo_world
      = (w', inr (List.mk PRIORITY true false true)) ∧
    stdout w' = stdout demo_world ++ [list_output false tasks] ∧
    sorted_by_key DESC PRIORITY tasks ∧
    (PRIORITY = PRIORITY → false = false →
     ∀ i j a b, (i < j)%nat → tasks !! i = Some a → tasks !! j = Some b →
       Priority.value (Task.priority b) ≤ Priority.value (Task.priority a)).
Proof.
  apply (List_run_sorted_by_key (List.mk PRIORITY false false true) demo_world).
  apply map_Forall_to_list. vm_compute. repeat constructor.
Defined.
